(** * Zen-Writer: a shallow embedding of the editor's logic

    The development follows the three source files of the repository:
    - [types.ts]                 ([AppStatus]),
    - [services/geminiService.ts] ([getAiSuggestion], [suggestTitle]),
    - [App.tsx]                  (the [App] component: its state, its
      event handlers, its timers and its persistence effect).

    JavaScript strings are sequences of UTF-16 code units and are
    modelled as lists of code units; JavaScript numbers that hold pixel
    measures are IEEE 754 binary64 numbers, modelled by the primitive
    floats, and the caret tracker is also read over exact rationals;
    the browser's local store is a finite map from key to string. The
    fullscreen toggle and the rain overlay act on the document only and
    are left out. *)

From Stdlib Require Import QArith Lqa Floats.
From stdpp Require Import gmap strings list.

Local Open Scope N_scope.
Set Warnings "-inexact-float".

(** ** JavaScript strings *)

Module Js.

(** A string is its list of UTF-16 code units. *)
Definition jsstring : Type := list N.

(** An ASCII literal, one code unit per character. *)
Definition lit (s : string) : jsstring :=
  map (fun a : Ascii.ascii => Ascii.N_of_ascii a) (String.list_ascii_of_string s).

Definition LF : N := 10.
Definition QUOTE : N := 34.

(** [s.length > 0] *)
Definition nonempty (s : jsstring) : bool :=
  match s with [] => false | _ :: _ => true end.

(** White space and line terminators of ECMAScript, the code units
    that [String.prototype.trim] strips. *)
Definition is_white (c : N) : bool :=
  ((9 <=? c) && (c <=? 13))
  || (c =? 32) || (c =? 160) || (c =? 5760)
  || ((8192 <=? c) && (c <=? 8202))
  || (c =? 8232) || (c =? 8233) || (c =? 8239) || (c =? 8287)
  || (c =? 12288) || (c =? 65279).

Fixpoint dropWhile {A} (p : A -> bool) (l : list A) : list A :=
  match l with
  | [] => []
  | x :: l' => if p x then dropWhile p l' else l
  end.

Definition trimStart (s : jsstring) : jsstring := dropWhile is_white s.
Definition trimEnd (s : jsstring) : jsstring := rev (dropWhile is_white (rev s)).

(** [s.trim()] *)
Definition trim (s : jsstring) : jsstring := trimEnd (trimStart s).

(** [s.slice(-n)]: the last [n] code units (the whole string when it is
    shorter). *)
Definition slice_last (n : nat) (s : jsstring) : jsstring :=
  skipn (length s - n)%nat s.

(** [s.slice(0, n)] *)
Definition slice_first (n : nat) (s : jsstring) : jsstring := firstn n s.

(** [s.substring(0, n)] for an offset [n >= 0]; an offset past the end
    is clamped to the length. *)
Definition substring0 (n : nat) (s : jsstring) : jsstring := firstn n s.

(** [s.split('\n')]: the pieces between line feeds; always at least one
    piece. The accumulator holds the current piece, reversed. *)
Fixpoint split_from (cur : jsstring) (s : jsstring) : list jsstring :=
  match s with
  | [] => [rev cur]
  | c :: s' =>
      if c =? LF then rev cur :: split_from [] s'
      else split_from (c :: cur) s'
  end.

Definition split_lines (s : jsstring) : list jsstring := split_from [] s.

(** ** The bytes of a string

    A string handed to [new Blob([...])] is first converted to a
    sequence of Unicode scalar values: a high surrogate followed by a
    low one is the scalar value of the pair, any other surrogate is
    replaced by U+FFFD. The scalar values are then encoded in UTF-8. *)

Definition isHigh (u : N) : bool := (0xD800 <=? u) && (u <=? 0xDBFF).
Definition isLow (u : N) : bool := (0xDC00 <=? u) && (u <=? 0xDFFF).
Definition REPLACEMENT : N := 0xFFFD.

Definition pairScalar (hi lo : N) : N :=
  0x10000 + (hi - 0xD800) * 0x400 + (lo - 0xDC00).

Fixpoint toScalars (s : jsstring) : list N :=
  match s with
  | [] => []
  | u :: rest =>
      if isHigh u then
        match rest with
        | lo :: rest' =>
            if isLow lo then pairScalar u lo :: toScalars rest'
            else REPLACEMENT :: toScalars rest
        | [] => [REPLACEMENT]
        end
      else if isLow u then REPLACEMENT :: toScalars rest
      else u :: toScalars rest
  end.

(** The UTF-8 bytes of a scalar value. *)
Definition utf8 (c : N) : list N :=
  if c <? 0x80 then [c]
  else if c <? 0x800 then [0xC0 + c / 0x40; 0x80 + c mod 0x40]
  else if c <? 0x10000 then
    [0xE0 + c / 0x1000; 0x80 + (c / 0x40) mod 0x40; 0x80 + c mod 0x40]
  else
    [0xF0 + c / 0x40000; 0x80 + (c / 0x1000) mod 0x40;
     0x80 + (c / 0x40) mod 0x40; 0x80 + c mod 0x40].

Definition utf8Encode (s : jsstring) : list N :=
  flat_map utf8 (toScalars s).

(** A string of 16-bit code units in which every surrogate is half of
    a pair. *)
Fixpoint wellFormed (s : jsstring) : bool :=
  match s with
  | [] => true
  | u :: rest =>
      if isHigh u then
        match rest with
        | lo :: rest' => isLow lo && wellFormed rest'
        | [] => false
        end
      else negb (isLow u) && (u <? 0x10000) && wellFormed rest
  end.

(** [a || d] for [a : string | undefined | null]: the empty string and
    the absent value are falsy. *)
Definition or_else (a : option jsstring) (d : jsstring) : jsstring :=
  match a with
  | Some (c :: s) => c :: s
  | Some [] | None => d
  end.

(** ** Exceptions

    A computation either returns or throws; [try_catch] is the
    [try { ... } catch (e) { ... }] block. *)

Inductive Exc (A : Type) : Type :=
| Returns (a : A)
| Throws (e : jsstring).
Arguments Returns {A} a.
Arguments Throws {A} e.

Definition bind {A B} (m : Exc A) (k : A -> Exc B) : Exc B :=
  match m with
  | Returns a => k a
  | Throws e => Throws e
  end.

Definition try_catch {A} (body : Exc A) (handler : jsstring -> Exc A) : Exc A :=
  match body with
  | Returns a => Returns a
  | Throws e => handler e
  end.

End Js.

Import Js.

Notation "'let*' x ':=' m 'in' k" := (bind m (fun x => k))
  (at level 10, x name, m at level 100, k at level 200).

(** ** services/geminiService.ts *)

Module GeminiService.

(** What the two operations send to [ai.models.generateContent]. *)
Record Request : Type := {
  model : string;
  contents : jsstring;
  temperature : option Q;
}.

(** The response object; [text] may be absent. *)
Record Response : Type := { text : option jsstring }.

(** The client object built by [new GoogleGenAI({ apiKey })]. *)
Record GoogleGenAI : Type := { apiKey : option jsstring }.

(** The constructor of the client in the browser build of the library:
    it refuses an absent key ([apiKey == null]) by throwing, and records
    any other. *)
Definition NO_API_KEY : jsstring :=
  lit "An API Key must be set when running in a browser".

Definition newGoogleGenAI (key : option jsstring) : Exc GoogleGenAI :=
  match key with
  | None => Throws NO_API_KEY
  | Some k => Returns {| apiKey := Some k |}
  end.

Definition MUSE_SILENT : jsstring := lit "The muse is silent today...".
Definition MUSE_ERROR : jsstring := lit "Error connecting to the AI Muse.".
Definition UNTITLED : jsstring := lit "Untitled Story".

Definition musePrompt (context : jsstring) : jsstring :=
  lit "You are a literary co-writer. Based on the following snippet from a novel, provide a creative and atmospheric next few sentences. Keep the tone consistent."
  ++ [LF] ++ lit "      "
  ++ [LF] ++ lit "      Snippet:"
  ++ [LF] ++ lit "      " ++ [QUOTE] ++ slice_last 1000 context ++ [QUOTE].

Definition titlePrompt (content : jsstring) : jsstring :=
  lit "Read this story and suggest a short, poetic title (max 5 words). "
  ++ [LF] ++ lit "        Return ONLY the title."
  ++ [LF] ++ lit "        "
  ++ [LF] ++ lit "        Story:"
  ++ [LF] ++ lit "        " ++ [QUOTE] ++ slice_first 2000 content ++ [QUOTE].

Definition museRequest (context : jsstring) : Request :=
  {| model := "gemini-3-pro-preview";
     contents := musePrompt context;
     temperature := Some (8 # 10) |}.

Definition titleRequest (content : jsstring) : Request :=
  {| model := "gemini-3-flash-preview";
     contents := titlePrompt content;
     temperature := None |}.

Section Remote.

(** The credential [process.env.API_KEY] and the remote service: what
    [generateContent] does with a request is the environment's choice. *)
Variable API_KEY : option jsstring.
Variable generateContent : GoogleGenAI -> Request -> Exc Response.

(** The client is built before the [try] block: what the constructor
    throws leaves the operation. *)
Definition getAiSuggestion (context : jsstring) : Exc jsstring :=
  let* ai := newGoogleGenAI API_KEY in
  try_catch
    (let* response := generateContent ai (museRequest context) in
     Returns (or_else (text response) MUSE_SILENT))
    (fun error => Returns MUSE_ERROR).

Definition suggestTitle (content : jsstring) : Exc jsstring :=
  let* ai := newGoogleGenAI API_KEY in
  try_catch
    (let* response := generateContent ai (titleRequest content) in
     Returns (or_else (trim <$> text response) UNTITLED))
    (fun e => Returns UNTITLED).

End Remote.

End GeminiService.

(** ** types.ts *)

Module Types.

Inductive AppStatus : Type := IDLE | WRITING | AI_THINKING.

Definition AppStatus_eqb (a b : AppStatus) : bool :=
  match a, b with
  | IDLE, IDLE | WRITING, WRITING | AI_THINKING, AI_THINKING => true
  | _, _ => false
  end.

End Types.

Import Types.

(** ** App.tsx: the caret tracker

    [scrollCaretIntoView] reads the editor element and the window and
    may issue one [window.scrollTo({ top, behavior: 'smooth' })]. The
    measures it reads are inputs here; the result is the [top] of the
    scroll it issues, if any.

    The function is given twice. [CaretTracker64] is the function as
    the browser runs it: its numbers are binary64 and each operation
    rounds. [CaretTracker] is the same text read over exact rationals,
    the arithmetic in which the formulas of the specification are
    written. *)

Module CaretTracker64.

Local Open Scope float_scope.

(** What the function reads of the textarea: the caret offset, the
    text, [parseFloat(getComputedStyle(editor).lineHeight)] (which may
    be NaN) and [getBoundingClientRect().top]. *)
Record Editor : Type := {
  selectionEnd : nat;
  value : jsstring;
  parsedLineHeight : float;
  rectTop : float;
}.

(** [window.scrollY] and [window.innerHeight]. *)
Record Window : Type := {
  scrollY : float;
  innerHeight : float;
}.

(** [a || d] on numbers: NaN, [+0] and [-0] are falsy. *)
Definition num_or (a d : float) : float :=
  if is_nan a || is_zero a then d else a.

(** The number that holds an array length. *)
Definition ofNat (n : nat) : float :=
  SF2Prim (binary_normalize prec emax (Z.of_nat n) 0 false).

Definition lineCount (editor : Editor) : nat :=
  length (split_lines (substring0 (selectionEnd editor) (value editor))).

Definition lineHeight (fontSize : float) (editor : Editor) : float :=
  num_or (parsedLineHeight editor) (fontSize * 1.5).

Definition caretOffsetTop (fontSize : float) (editor : Editor) : float :=
  ofNat (lineCount editor) * lineHeight fontSize editor.

Definition globalCaretY (fontSize : float) (editor : Editor) (w : Window)
    : float :=
  rectTop editor + scrollY w + caretOffsetTop fontSize editor.

Definition lowerThreshold (w : Window) : float :=
  scrollY w + innerHeight w * 0.75.

(** [globalCaretY > lowerThreshold] is false when either is NaN. *)
Definition scrollCaretIntoView
    (fontSize : float) (editorRef : option Editor) (w : Window)
    : option float :=
  match editorRef with
  | None => None
  | Some editor =>
      if lowerThreshold w <? globalCaretY fontSize editor w
      then Some (globalCaretY fontSize editor w - innerHeight w * 0.5)
      else None
  end.

(** The rational a finite number stands for. *)
Definition exact (x : float) : option Q :=
  match Prim2SF x with
  | S754_zero _ => Some 0%Q
  | S754_finite s m e =>
      Some (inject_Z (if s then Z.neg m else Z.pos m) * Qpower 2 e)%Q
  | S754_infinity _ | S754_nan => None
  end.

End CaretTracker64.

Module CaretTracker.

Local Open Scope Q_scope.

(** What the function reads of the textarea: the caret offset, the
    text, [parseFloat(getComputedStyle(editor).lineHeight)] ([None] is
    NaN) and [getBoundingClientRect().top]. *)
Record Editor : Type := {
  selectionEnd : nat;
  value : jsstring;
  parsedLineHeight : option Q;
  rectTop : Q;
}.

(** [window.scrollY] and [window.innerHeight]. *)
Record Window : Type := {
  scrollY : Q;
  innerHeight : Q;
}.

(** [a || d] on numbers: NaN and zero are falsy. *)
Definition num_or (a : option Q) (d : Q) : Q :=
  match a with
  | Some q => if Qeq_bool q 0 then d else q
  | None => d
  end.

Definition lineCount (editor : Editor) : nat :=
  length (split_lines (substring0 (selectionEnd editor) (value editor))).

Definition lineHeight (fontSize : Q) (editor : Editor) : Q :=
  num_or (parsedLineHeight editor) (fontSize * (3 # 2)).

Definition caretOffsetTop (fontSize : Q) (editor : Editor) : Q :=
  inject_Z (Z.of_nat (lineCount editor)) * lineHeight fontSize editor.

Definition globalCaretY (fontSize : Q) (editor : Editor) (w : Window) : Q :=
  rectTop editor + scrollY w + caretOffsetTop fontSize editor.

Definition lowerThreshold (w : Window) : Q :=
  scrollY w + innerHeight w * (3 # 4).

Definition scrollCaretIntoView
    (fontSize : Q) (editorRef : option Editor) (w : Window) : option Q :=
  match editorRef with
  | None => None
  | Some editor =>
      if Qlt_le_dec (lowerThreshold w) (globalCaretY fontSize editor w)
      then Some (globalCaretY fontSize editor w - innerHeight w * (1 # 2))
      else None
  end.

End CaretTracker.

(** The exact reading of what the tracker reads, when the measures are
    finite numbers; a line height that is not a number is read as
    absent. *)
Module CaretExact.

Definition editor (e : CaretTracker64.Editor) : option CaretTracker.Editor :=
  match CaretTracker64.exact (CaretTracker64.rectTop e) with
  | Some top =>
      Some {| CaretTracker.selectionEnd := CaretTracker64.selectionEnd e;
              CaretTracker.value := CaretTracker64.value e;
              CaretTracker.parsedLineHeight :=
                CaretTracker64.exact (CaretTracker64.parsedLineHeight e);
              CaretTracker.rectTop := top |}
  | None => None
  end.

Definition window (w : CaretTracker64.Window) : option CaretTracker.Window :=
  match CaretTracker64.exact (CaretTracker64.scrollY w),
        CaretTracker64.exact (CaretTracker64.innerHeight w) with
  | Some y, Some h =>
      Some {| CaretTracker.scrollY := y; CaretTracker.innerHeight := h |}
  | _, _ => None
  end.

End CaretExact.

(** ** App.tsx: the component

    The component is an event-driven machine. Its React state, its refs
    and what it holds of the browser (the local store, the timer table,
    the remote calls it awaits) form one [State]; every browser event
    runs a handler and then the render's effects. *)

Module App.

Import GeminiService.

Definition CONTENT_KEY : string := "zen-writer-content".
Definition TITLE_KEY : string := "zen-writer-title".

(** The title of a fresh draft, U+96E8 U+591C U+968F U+7B14. *)
Definition DEFAULT_TITLE : jsstring := [38632; 22812; 38543; 31508].
(** The title after a clear, U+65B0 U+7BC7 U+7AE0. *)
Definition CLEARED_TITLE : jsstring := [26032; 31687; 31456].

(** The callbacks the component hands to [setTimeout]. The first is
    created by [handleMouseMove] and closes over the [content] of the
    render in which that handler was made. *)
Inductive TimerTask : Type :=
| HideIfActive (content : jsstring)
| HideUI
| StopTyping
| ScrollToBottom.

Record Timer : Type := {
  timer_id : nat;
  due : N;
  task : TimerTask;
}.

(** A remote operation the component awaits, with its argument. *)
Inductive CallKind : Type := MuseCall | TitleCall.

Record Call : Type := {
  call_id : nat;
  kind : CallKind;
  argument : jsstring;
}.

(** Commands sent to the window, latest first. *)
Inductive ViewCmd : Type := FollowCaret | ScrollTop | ScrollBottom.

Record State : Type := {
  (* useState *)
  content : jsstring;
  title : jsstring;
  status : AppStatus;
  showUI : bool;
  wordCount : nat;
  fontSize : Z;
  (* useRef *)
  uiTimeoutRef : option nat;
  isTypingRef : bool;
  (* the browser *)
  localStorage : gmap string jsstring;
  apiKeyEnv : option jsstring;
  now : N;
  timers : list Timer;
  nextTimer : nat;
  pending : list Call;
  nextCall : nat;
  sent : list Request;
  view : list ViewCmd;
}.

Definition setContent (v : jsstring) (s : State) : State :=
  {| content := v; title := title s; status := status s; showUI := showUI s;
     wordCount := wordCount s; fontSize := fontSize s;
     uiTimeoutRef := uiTimeoutRef s; isTypingRef := isTypingRef s;
     localStorage := localStorage s; apiKeyEnv := apiKeyEnv s; now := now s;
     timers := timers s; nextTimer := nextTimer s; pending := pending s;
     nextCall := nextCall s; sent := sent s; view := view s |}.

Definition setTitle (v : jsstring) (s : State) : State :=
  {| content := content s; title := v; status := status s; showUI := showUI s;
     wordCount := wordCount s; fontSize := fontSize s;
     uiTimeoutRef := uiTimeoutRef s; isTypingRef := isTypingRef s;
     localStorage := localStorage s; apiKeyEnv := apiKeyEnv s; now := now s;
     timers := timers s; nextTimer := nextTimer s; pending := pending s;
     nextCall := nextCall s; sent := sent s; view := view s |}.

Definition setStatus (v : AppStatus) (s : State) : State :=
  {| content := content s; title := title s; status := v; showUI := showUI s;
     wordCount := wordCount s; fontSize := fontSize s;
     uiTimeoutRef := uiTimeoutRef s; isTypingRef := isTypingRef s;
     localStorage := localStorage s; apiKeyEnv := apiKeyEnv s; now := now s;
     timers := timers s; nextTimer := nextTimer s; pending := pending s;
     nextCall := nextCall s; sent := sent s; view := view s |}.

Definition setShowUI (v : bool) (s : State) : State :=
  {| content := content s; title := title s; status := status s; showUI := v;
     wordCount := wordCount s; fontSize := fontSize s;
     uiTimeoutRef := uiTimeoutRef s; isTypingRef := isTypingRef s;
     localStorage := localStorage s; apiKeyEnv := apiKeyEnv s; now := now s;
     timers := timers s; nextTimer := nextTimer s; pending := pending s;
     nextCall := nextCall s; sent := sent s; view := view s |}.

Definition setWordCount (v : nat) (s : State) : State :=
  {| content := content s; title := title s; status := status s; showUI := showUI s;
     wordCount := v; fontSize := fontSize s;
     uiTimeoutRef := uiTimeoutRef s; isTypingRef := isTypingRef s;
     localStorage := localStorage s; apiKeyEnv := apiKeyEnv s; now := now s;
     timers := timers s; nextTimer := nextTimer s; pending := pending s;
     nextCall := nextCall s; sent := sent s; view := view s |}.

Definition setFontSize (v : Z) (s : State) : State :=
  {| content := content s; title := title s; status := status s; showUI := showUI s;
     wordCount := wordCount s; fontSize := v;
     uiTimeoutRef := uiTimeoutRef s; isTypingRef := isTypingRef s;
     localStorage := localStorage s; apiKeyEnv := apiKeyEnv s; now := now s;
     timers := timers s; nextTimer := nextTimer s; pending := pending s;
     nextCall := nextCall s; sent := sent s; view := view s |}.

Definition setUiTimeoutRef (v : option nat) (s : State) : State :=
  {| content := content s; title := title s; status := status s; showUI := showUI s;
     wordCount := wordCount s; fontSize := fontSize s;
     uiTimeoutRef := v; isTypingRef := isTypingRef s;
     localStorage := localStorage s; apiKeyEnv := apiKeyEnv s; now := now s;
     timers := timers s; nextTimer := nextTimer s; pending := pending s;
     nextCall := nextCall s; sent := sent s; view := view s |}.

Definition setIsTypingRef (v : bool) (s : State) : State :=
  {| content := content s; title := title s; status := status s; showUI := showUI s;
     wordCount := wordCount s; fontSize := fontSize s;
     uiTimeoutRef := uiTimeoutRef s; isTypingRef := v;
     localStorage := localStorage s; apiKeyEnv := apiKeyEnv s; now := now s;
     timers := timers s; nextTimer := nextTimer s; pending := pending s;
     nextCall := nextCall s; sent := sent s; view := view s |}.

Definition setLocalStorage (v : gmap string jsstring) (s : State) : State :=
  {| content := content s; title := title s; status := status s; showUI := showUI s;
     wordCount := wordCount s; fontSize := fontSize s;
     uiTimeoutRef := uiTimeoutRef s; isTypingRef := isTypingRef s;
     localStorage := v; apiKeyEnv := apiKeyEnv s; now := now s;
     timers := timers s; nextTimer := nextTimer s; pending := pending s;
     nextCall := nextCall s; sent := sent s; view := view s |}.

Definition setNow (v : N) (s : State) : State :=
  {| content := content s; title := title s; status := status s; showUI := showUI s;
     wordCount := wordCount s; fontSize := fontSize s;
     uiTimeoutRef := uiTimeoutRef s; isTypingRef := isTypingRef s;
     localStorage := localStorage s; apiKeyEnv := apiKeyEnv s; now := v;
     timers := timers s; nextTimer := nextTimer s; pending := pending s;
     nextCall := nextCall s; sent := sent s; view := view s |}.

Definition setTimers (v : list Timer) (n : nat) (s : State) : State :=
  {| content := content s; title := title s; status := status s; showUI := showUI s;
     wordCount := wordCount s; fontSize := fontSize s;
     uiTimeoutRef := uiTimeoutRef s; isTypingRef := isTypingRef s;
     localStorage := localStorage s; apiKeyEnv := apiKeyEnv s; now := now s;
     timers := v; nextTimer := n; pending := pending s;
     nextCall := nextCall s; sent := sent s; view := view s |}.

Definition setCalls (v : list Call) (n : nat) (r : list Request) (s : State) : State :=
  {| content := content s; title := title s; status := status s; showUI := showUI s;
     wordCount := wordCount s; fontSize := fontSize s;
     uiTimeoutRef := uiTimeoutRef s; isTypingRef := isTypingRef s;
     localStorage := localStorage s; apiKeyEnv := apiKeyEnv s; now := now s;
     timers := timers s; nextTimer := nextTimer s; pending := v;
     nextCall := n; sent := r; view := view s |}.

Definition pushView (c : ViewCmd) (s : State) : State :=
  {| content := content s; title := title s; status := status s; showUI := showUI s;
     wordCount := wordCount s; fontSize := fontSize s;
     uiTimeoutRef := uiTimeoutRef s; isTypingRef := isTypingRef s;
     localStorage := localStorage s; apiKeyEnv := apiKeyEnv s; now := now s;
     timers := timers s; nextTimer := nextTimer s; pending := pending s;
     nextCall := nextCall s; sent := sent s; view := c :: view s |}.

(** *** Timers

    The table of pending timers is kept in firing order: by due time,
    and by creation among timers due together. Identifiers are positive
    and never reused, so a set [uiTimeoutRef] is always truthy. *)

Fixpoint insertTimer (t : Timer) (ts : list Timer) : list Timer :=
  match ts with
  | [] => [t]
  | u :: ts' =>
      if due u <=? due t then u :: insertTimer t ts' else t :: ts
  end.

Definition setTimeout (k : TimerTask) (delay : N) (s : State) : nat * State :=
  let id := nextTimer s in
  let t := {| timer_id := id; due := now s + delay; task := k |} in
  (id, setTimers (insertTimer t (timers s)) (S id) s).

Definition clearTimeout (id : nat) (s : State) : State :=
  setTimers (List.filter (fun t => negb (timer_id t =? id)%nat) (timers s))
            (nextTimer s) s.

(** [if (uiTimeoutRef.current) clearTimeout(uiTimeoutRef.current)] *)
Definition clearUiTimeout (s : State) : State :=
  match uiTimeoutRef s with
  | Some id => clearTimeout id s
  | None => s
  end.

Definition runTask (k : TimerTask) (s : State) : State :=
  match k with
  | HideIfActive captured =>
      if isTypingRef s || nonempty captured then setShowUI false s else s
  | HideUI => setShowUI false s
  | StopTyping => setIsTypingRef false s
  | ScrollToBottom => pushView ScrollBottom s
  end.

(** [ms] milliseconds pass: every timer that has come due fires, in
    firing order, and leaves the table. *)
Definition elapse (ms : N) (s : State) : State :=
  let t := now s + ms in
  let (ripe, rest) := List.partition (fun x => due x <=? t) (timers s) in
  fold_left (fun s x => runTask (task x) s) ripe
            (setTimers rest (nextTimer s) (setNow t s)).

(** *** Handlers *)

Definition handleMouseMove (s : State) : State :=
  let captured := content s in
  let s := setShowUI true s in
  let s := clearUiTimeout s in
  let (id, s) := setTimeout (HideIfActive captured) 4000 s in
  setUiTimeoutRef (Some id) s.

Definition handleContentChange (v : jsstring) (s : State) : State :=
  let visible := showUI s in
  let s := setIsTypingRef true s in
  let s := setContent v s in
  let s := pushView FollowCaret s in
  if visible then
    let s := clearUiTimeout s in
    let (id, s) := setTimeout HideUI 2000 s in
    setUiTimeoutRef (Some id) s
  else s.

(** A remote operation is entered. When the client is built, the
    request leaves and the handler is suspended on the answer. When the
    constructor throws, no request leaves, the operation rejects, and the
    handler, which has no [catch] of its own, is abandoned where it
    stood. *)
Definition startCall (k : CallKind) (arg : jsstring) (req : Request)
    (s : State) : State :=
  match newGoogleGenAI (apiKeyEnv s) with
  | Returns _ =>
      setCalls
        (pending s ++ [{| call_id := nextCall s; kind := k; argument := arg |}])
        (S (nextCall s)) (sent s ++ [req]) s
  | Throws _ => s
  end.

(** [handleAiMuse], up to its [await]. *)
Definition handleAiMuse (s : State) : State :=
  if nonempty (trim (content s)) then
    startCall MuseCall (content s) (museRequest (content s))
              (setStatus AI_THINKING s)
  else s.

(** [handleAiMuse], after its [await]. *)
Definition resumeAiMuse (suggestion : jsstring) (s : State) : State :=
  let s := setContent (content s ++ [LF; LF] ++ suggestion) s in
  let s := setStatus IDLE s in
  snd (setTimeout ScrollToBottom 100 s).

(** [handleSuggestTitle], up to its [await]. *)
Definition handleSuggestTitle (s : State) : State :=
  if nonempty (trim (content s)) then
    startCall TitleCall (content s) (titleRequest (content s))
              (setStatus AI_THINKING s)
  else s.

(** [handleSuggestTitle], after its [await]. *)
Definition resumeSuggestTitle (newTitle : jsstring) (s : State) : State :=
  let s := setTitle newTitle s in
  setStatus IDLE s.

(** [handleClear]; [confirmed] is the answer of [window.confirm]. *)
Definition handleClear (confirmed : bool) (s : State) : State :=
  if confirmed then
    let s := setContent [] s in
    let s := setTitle CLEARED_TITLE s in
    pushView ScrollTop s
  else s.

Definition findCall (id : nat) (cs : list Call) : option Call :=
  List.find (fun c => (call_id c =? id)%nat) cs.

Definition dropCall (id : nat) (cs : list Call) : list Call :=
  List.filter (fun c => negb (call_id c =? id)%nat) cs.

(** The remote service answers the awaited call [id] with [outcome]:
    the service operation finishes, and when it returns, the suspended
    handler resumes; when it throws, the handler is abandoned where it
    stood. *)
Definition settle (id : nat) (outcome : Exc Response) (s : State) : State :=
  match findCall id (pending s) with
  | None => s
  | Some c =>
      let s := setCalls (dropCall id (pending s)) (nextCall s) (sent s) s in
      match kind c with
      | MuseCall =>
          match getAiSuggestion (apiKeyEnv s) (fun _ _ => outcome) (argument c) with
          | Returns suggestion => resumeAiMuse suggestion s
          | Throws _ => s
          end
      | TitleCall =>
          match suggestTitle (apiKeyEnv s) (fun _ _ => outcome) (argument c) with
          | Returns newTitle => resumeSuggestTitle newTitle s
          | Throws _ => s
          end
      end
  end.

(** *** Effects and mounting *)

(** The effect on [content, title]. *)
Definition persist (s : State) : State :=
  let store :=
    <[TITLE_KEY := title s]> (<[CONTENT_KEY := content s]> (localStorage s)) in
  setWordCount (length (trim (content s))) (setLocalStorage store s).

(** After a handler the component renders again, and the effect runs
    when one of its dependencies changed. *)
Definition commit (prev next : State) : State :=
  if decide (content next = content prev /\ title next = title prev)
  then next else persist next.

(** The first render of a fresh process over the store, followed by
    the effect, which runs on mount. *)
Definition mount (key : option jsstring) (clock : N)
    (store : gmap string jsstring) : State :=
  persist
    {| content := or_else (store !! CONTENT_KEY) [];
       title := or_else (store !! TITLE_KEY) DEFAULT_TITLE;
       status := IDLE; showUI := true; wordCount := 0; fontSize := 20;
       uiTimeoutRef := None; isTypingRef := false;
       localStorage := store; apiKeyEnv := key; now := clock;
       timers := []; nextTimer := 1; pending := []; nextCall := 0;
       sent := []; view := [] |}.

(** *** Events

    A click on a button runs the button's handler and then bubbles to
    the root element, whose [onClick] clears [isTypingRef]. A disabled
    button receives no click. *)
Inductive Event : Type :=
| MouseMove
| Input (v : jsstring)
| TitleInput (v : jsstring)
| EditorFocus
| EditorBlur
| TitleFocus
| ClickMuse
| ClickSuggestTitle
| ClickClear (confirmed : bool)
| ClickFontMinus
| ClickFontPlus
| ClickPage
| Settle (id : nat) (outcome : Exc Response)
| Elapse (ms : N)
| Reload.

Definition rootClick (s : State) : State := setIsTypingRef false s.

Definition museDisabled (s : State) : bool := AppStatus_eqb (status s) AI_THINKING.

Definition dispatch (e : Event) (s : State) : State :=
  match e with
  | MouseMove => handleMouseMove s
  | Input v => handleContentChange v s
  | TitleInput v => setTitle v s
  | EditorFocus => setIsTypingRef true s
  | EditorBlur => snd (setTimeout StopTyping 250 s)
  | TitleFocus => setIsTypingRef false s
  | ClickMuse => if museDisabled s then s else rootClick (handleAiMuse s)
  | ClickSuggestTitle => rootClick (handleSuggestTitle s)
  | ClickClear confirmed => rootClick (handleClear confirmed s)
  | ClickFontMinus => rootClick (setFontSize (Z.max 16 (fontSize s - 2)) s)
  | ClickFontPlus => rootClick (setFontSize (Z.min 42 (fontSize s + 2)) s)
  | ClickPage => rootClick s
  | Settle id outcome => settle id outcome s
  | Elapse ms => elapse ms s
  | Reload => mount (apiKeyEnv s) (now s) (localStorage s)
  end.

Definition step (e : Event) (s : State) : State :=
  match e with
  | Reload => dispatch e s
  | _ => commit s (dispatch e s)
  end.

Definition run (es : list Event) (s : State) : State :=
  fold_left (fun s e => step e s) es s.

(** The hide timers are the two kinds kept in [uiTimeoutRef]. *)
Definition isHideTask (k : TimerTask) : bool :=
  match k with
  | HideIfActive _ | HideUI => true
  | StopTyping | ScrollToBottom => false
  end.

Definition hideTimers (s : State) : list Timer :=
  List.filter (fun t => isHideTask (task t)) (timers s).

End App.

(** ** App.tsx: what the component shows and exports *)

Module AppView.

Import App.



(** [Math.ceil(n / 450)] on a count. *)
Definition ceilDiv450 (n : nat) : nat :=
  if (n mod 450 =? 0)%nat then (n / 450)%nat else S (n / 450)%nat.

(** The reading time shown in the footer,
    [Math.ceil(wordCount / 450) || 1]: zero is falsy. *)
Definition readingMinutes (wordCount : nat) : nat :=
  match ceilDiv450 wordCount with
  | O => 1%nat
  | S m => S m
  end.

End AppView.

(** ** App.tsx: the height of the editor

    [adjustHeight] writes two style properties, the editor's [height]
    and the wrapper's [minHeight], and reads two measures of the editor.
    What the browser reports for a given [style.height] of the editor,
    the content and the font being what they are, is the browser's. *)

Module Layout.

(** A style length as written here: never set, [auto], or pixels. *)
Inductive CssHeight : Type := Unset | Auto | Px (h : Z).

Record Dom : Type := {
  editorHeight : CssHeight;
  wrapperMinHeight : CssHeight;
}.

Section Browser.

Variable offsetHeight : CssHeight -> Z.
Variable scrollHeight : CssHeight -> Z.

(** The document after each of the four writes, in order; nothing is
    written when a ref is not set. *)
Definition adjustHeightSteps (editorRef wrapperRef : bool) (d : Dom)
    : list Dom :=
  if editorRef && wrapperRef then
    let d1 := {| editorHeight := editorHeight d;
                 wrapperMinHeight := Px (offsetHeight (editorHeight d)) |} in
    let d2 := {| editorHeight := Auto;
                 wrapperMinHeight := wrapperMinHeight d1 |} in
    let newHeight := scrollHeight (editorHeight d2) in
    let d3 := {| editorHeight := Px newHeight;
                 wrapperMinHeight := wrapperMinHeight d2 |} in
    let d4 := {| editorHeight := editorHeight d3;
                 wrapperMinHeight := Px newHeight |} in
    [d1; d2; d3; d4]
  else [].

Definition adjustHeight (editorRef wrapperRef : bool) (d : Dom) : Dom :=
  List.last (adjustHeightSteps editorRef wrapperRef d) d.

End Browser.

End Layout.

(** ** Invariants and observations

    The predicates the properties below are stated and proved with. *)

Import GeminiService App.

(** The part of the state that only the font buttons, the effect and
    a reload write. *)
Definition sameSettings (s s' : State) : Prop :=
  fontSize s' = fontSize s
  /\ localStorage s' = localStorage s
  /\ apiKeyEnv s' = apiKeyEnv s.

Definition fontInRange (s : State) : Prop := (16 <= fontSize s <= 42)%Z.

(** Identifiers of awaited calls are below the next one to be given. *)
Definition callsFresh (s : State) : Prop :=
  Forall (fun c => (call_id c < nextCall s)%nat) (pending s).

Definition sameCalls (s s' : State) : Prop :=
  pending s' = pending s /\ nextCall s' = nextCall s /\ sent s' = sent s.

(** The store holds the draft as the component holds it. *)
Definition synced (s : State) : Prop :=
  localStorage s !! CONTENT_KEY = Some (content s)
  /\ localStorage s !! TITLE_KEY = Some (title s).

Definition hides (t : Timer) : bool := isHideTask (task t).

(** Every pending hide timer is the one held in [uiTimeoutRef], and
    there is at most one. *)
Definition hideOk (s : State) : Prop :=
  Forall (fun t => hides t = true -> uiTimeoutRef s = Some (timer_id t))
         (timers s)
  /\ (length (hideTimers s) <= 1)%nat.

(** While a hide timer is pending the chrome is shown. *)
Definition shownWhilePending (s : State) : Prop :=
  Forall (fun t => hides t = true -> showUI s = true) (timers s).

Definition mouseTimer (s : State) : Timer :=
  {| timer_id := nextTimer s; due := now s + 4000;
     task := HideIfActive (content s) |}.

Definition keyTimer (s : State) : Timer :=
  {| timer_id := nextTimer s; due := now s + 2000; task := HideUI |}.

Definition ripeTimers (ms : N) (s : State) : list Timer :=
  List.filter (fun x => due x <=? now s + ms) (timers s).

(** What a list of timer callbacks, run in order, does to
    [isTypingRef] and [showUI]. *)
Fixpoint visAfter (ts : list Timer) (typing vis : bool) : bool * bool :=
  match ts with
  | [] => (typing, vis)
  | t :: ts' =>
      match task t with
      | HideIfActive c =>
          visAfter ts' typing (if typing || nonempty c then false else vis)
      | HideUI => visAfter ts' typing false
      | StopTyping => visAfter ts' false vis
      | ScrollToBottom => visAfter ts' typing vis
      end
  end.

(** The status is never [WRITING], and in a process that has a key it
    is [AI_THINKING] only while a call is awaited. *)
Definition statusOk (s : State) : Prop :=
  status s <> WRITING
  /\ (apiKeyEnv s <> None -> status s = AI_THINKING -> pending s <> []).

(** The word count is the length of the trimmed content. *)
Definition counted (s : State) : Prop :=
  wordCount s = length (trim (content s)).

Definition sameDraft (s s' : State) : Prop :=
  content s' = content s /\ title s' = title s
  /\ status s' = status s /\ wordCount s' = wordCount s.

(** The font size is an even number of pixels. *)
Definition fontEven (s : State) : Prop := Z.even (fontSize s) = true.

(** Timer identifiers are below the next one to be given, so is the
    one in [uiTimeoutRef], and a pending timer named by [uiTimeoutRef]
    is a hide timer. *)
Definition idsOk (ref : option nat) (next : nat) (ts : list Timer) : Prop :=
  Forall (fun t => (timer_id t < next)%nat) ts
  /\ (forall id, ref = Some id -> (id < next)%nat)
  /\ Forall (fun t => ref = Some (timer_id t) -> hides t = true) ts.

Definition timerIdsOk (s : State) : Prop :=
  idsOk (uiTimeoutRef s) (nextTimer s) (timers s).

(** The timers that are not hide timers. *)
Definition plainTimers (s : State) : list Timer :=
  List.filter (fun t => negb (isHideTask (task t))) (timers s).

(** A call is awaited only when the client could be built. *)
Definition keyedCalls (s : State) : Prop :=
  apiKeyEnv s = None -> pending s = [].

(** A scalar value, and how its UTF-8 bytes determine it. *)
Definition isScalar (c : N) : Prop := c < 0x110000.

Inductive Utf8Of (c : N) : list N -> Prop :=
| Utf8_1 : c < 0x80 -> Utf8Of c [c]
| Utf8_2 b0 b1 :
    0xC0 <= b0 < 0xE0 -> 0x80 <= b1 < 0xC0 ->
    c = (b0 - 0xC0) * 0x40 + (b1 - 0x80) -> Utf8Of c [b0; b1]
| Utf8_3 b0 b1 b2 :
    0xE0 <= b0 < 0xF0 -> 0x80 <= b1 < 0xC0 -> 0x80 <= b2 < 0xC0 ->
    c = (b0 - 0xE0) * 0x1000 + (b1 - 0x80) * 0x40 + (b2 - 0x80) ->
    Utf8Of c [b0; b1; b2]
| Utf8_4 b0 b1 b2 b3 :
    0xF0 <= b0 < 0xF8 -> 0x80 <= b1 < 0xC0 -> 0x80 <= b2 < 0xC0 ->
    0x80 <= b3 < 0xC0 ->
    c = (b0 - 0xF0) * 0x40000 + (b1 - 0x80) * 0x1000 + (b2 - 0x80) * 0x40
        + (b3 - 0x80) ->
    Utf8Of c [b0; b1; b2; b3].

(** How a well-formed string is made. *)
Inductive WellFormed : jsstring -> Prop :=
| WF_nil : WellFormed []
| WF_unit u rest :
    isHigh u = false -> isLow u = false -> u < 0x10000 ->
    WellFormed rest -> WellFormed (u :: rest)
| WF_pair hi lo rest :
    isHigh hi = true -> isLow lo = true ->
    WellFormed rest -> WellFormed (hi :: lo :: rest).

(** * Properties *)

(** ** Strings *)

Section StringFacts.

Lemma or_else_default (a : option jsstring) (d : jsstring) :
  a = None \/ a = Some [] -> or_else a d = d.
Proof. intros [-> | ->]; reflexivity. Qed.

Lemma or_else_value (t d : jsstring) : t <> [] -> or_else (Some t) d = t.
Proof. destruct t; [congruence | reflexivity]. Qed.

Lemma or_else_nonempty (a : option jsstring) (d : jsstring) :
  d <> [] -> or_else a d <> [].
Proof.
  intros Hd. destruct a as [[|c t]|]; simpl; try assumption. discriminate.
Qed.

Lemma nonempty_false (s : jsstring) : nonempty s = false <-> s = [].
Proof. destruct s; simpl; split; congruence. Qed.

Lemma nonempty_true (s : jsstring) : nonempty s = true <-> s <> [].
Proof. destruct s; simpl; split; congruence. Qed.

Lemma length_split_from (s cur : jsstring) :
  length (split_from cur s) = S (count_occ N.eq_dec s LF).
Proof.
  revert cur. induction s as [|c s IH]; intros cur; simpl; [reflexivity|].
  destruct (N.eqb_spec c LF) as [->|Hne].
  - simpl. rewrite IH. destruct (N.eq_dec LF LF); congruence.
  - rewrite IH. destruct (N.eq_dec c LF); congruence.
Qed.

Lemma MUSE_SILENT_nonempty : MUSE_SILENT <> [].
Proof. discriminate. Qed.

Lemma MUSE_ERROR_nonempty : MUSE_ERROR <> [].
Proof. discriminate. Qed.

Lemma UNTITLED_nonempty : UNTITLED <> [].
Proof. discriminate. Qed.

End StringFacts.

(** ** The remote suggestion client *)

Section ServiceFacts.

Variable k : jsstring.
Variable generateContent : GoogleGenAI -> Request -> Exc Response.

Let ai : GoogleGenAI := {| apiKey := Some k |}.

(** With a key, the continuation operation, case by case on what the
    remote call did. *)
Lemma getAiSuggestion_unfold (context : jsstring) :
  getAiSuggestion (Some k) generateContent context =
  Returns match generateContent ai (museRequest context) with
          | Returns response => or_else (text response) MUSE_SILENT
          | Throws _ => MUSE_ERROR
          end.
Proof.
  unfold getAiSuggestion, try_catch, bind. simpl.
  destruct (generateContent _ _); reflexivity.
Qed.

(** With a key, the title operation, case by case on what the remote
    call did. *)
Lemma suggestTitle_unfold (content : jsstring) :
  suggestTitle (Some k) generateContent content =
  Returns match generateContent ai (titleRequest content) with
          | Returns response => or_else (trim <$> text response) UNTITLED
          | Throws _ => UNTITLED
          end.
Proof.
  unfold suggestTitle, try_catch, bind. simpl.
  destruct (generateContent _ _); reflexivity.
Qed.

(** Without a key both operations throw what the constructor throws,
    and the remote service is not called. *)
Lemma getAiSuggestion_no_key (context : jsstring) :
  getAiSuggestion None generateContent context = Throws NO_API_KEY.
Proof. reflexivity. Qed.

Lemma suggestTitle_no_key (content : jsstring) :
  suggestTitle None generateContent content = Throws NO_API_KEY.
Proof. reflexivity. Qed.

End ServiceFacts.

(** C10, where the code departs from it. Both operations build their
    client before the [try] block. Without a key the constructor throws:
    the operation throws in its turn, whatever the input, and a click on
    the continuation control leaves the status at [AI_THINKING] with no
    request sent and no call awaited, the control disabled from then on.
    With a key both operations always return a non-empty string, whatever
    the remote call does: an absent or empty text gives "The muse is
    silent today...", which differs from the failure fallback "Error
    connecting to the AI Muse."; the title operation trims the text first
    and returns "Untitled Story" when nothing is left, which is also its
    failure fallback, and the trimmed text otherwise. *)
Theorem suggestions_reject_without_key
    (k : jsstring)
    (generateContent : GoogleGenAI -> Request -> Exc Response)
    (input : jsstring) :
  let ai := {| apiKey := Some k |} in
  let stuck := App.run [App.Input (lit "a"); App.ClickMuse]
                       (App.mount None 0 ∅) in
  getAiSuggestion None generateContent input = Throws NO_API_KEY
  /\ suggestTitle None generateContent input = Throws NO_API_KEY
  /\ (App.status stuck = AI_THINKING /\ App.pending stuck = []
      /\ App.sent stuck = [] /\ App.step App.ClickMuse stuck = stuck)
  /\ (exists s, getAiSuggestion (Some k) generateContent input = Returns s
                /\ s <> [])
  /\ (exists s, suggestTitle (Some k) generateContent input = Returns s
                /\ s <> [])
  /\ (forall response,
        generateContent ai (museRequest input) = Returns response ->
        text response = None \/ text response = Some [] ->
        getAiSuggestion (Some k) generateContent input = Returns MUSE_SILENT)
  /\ (forall e,
        generateContent ai (museRequest input) = Throws e ->
        getAiSuggestion (Some k) generateContent input = Returns MUSE_ERROR)
  /\ MUSE_SILENT <> MUSE_ERROR
  /\ (forall response,
        generateContent ai (titleRequest input) = Returns response ->
        trim <$> text response = None \/ trim <$> text response = Some [] ->
        suggestTitle (Some k) generateContent input = Returns UNTITLED)
  /\ (forall e,
        generateContent ai (titleRequest input) = Throws e ->
        suggestTitle (Some k) generateContent input = Returns UNTITLED)
  /\ (forall response t,
        generateContent ai (titleRequest input) = Returns response ->
        text response = Some t -> trim t <> [] ->
        suggestTitle (Some k) generateContent input = Returns (trim t)).
Proof.
  intros ai stuck.
  split; [reflexivity|]. split; [reflexivity|].
  split.
  { split; [vm_compute; reflexivity|]. split; [vm_compute; reflexivity|].
    split; vm_compute; reflexivity. }
  repeat split.
  - rewrite getAiSuggestion_unfold. eexists; split; [reflexivity|].
    destruct (generateContent _ _).
    + apply or_else_nonempty, MUSE_SILENT_nonempty.
    + apply MUSE_ERROR_nonempty.
  - rewrite suggestTitle_unfold. eexists; split; [reflexivity|].
    destruct (generateContent _ _).
    + apply or_else_nonempty, UNTITLED_nonempty.
    + apply UNTITLED_nonempty.
  - intros response Hcall Htext. rewrite getAiSuggestion_unfold.
    fold ai. rewrite Hcall. f_equal. now apply or_else_default.
  - intros e Hcall. rewrite getAiSuggestion_unfold. fold ai. now rewrite Hcall.
  - discriminate.
  - intros response Hcall Htext. rewrite suggestTitle_unfold.
    fold ai. rewrite Hcall. f_equal. now apply or_else_default.
  - intros e Hcall. rewrite suggestTitle_unfold. fold ai. now rewrite Hcall.
  - intros response t Hcall Htext Ht. rewrite suggestTitle_unfold.
    fold ai. rewrite Hcall, Htext. simpl. f_equal. now apply or_else_value.
Qed.

(** An instance of the part of C10 that holds: with the key "k", a
    remote call that succeeds with no text makes the continuation
    operation return "The muse is silent today..."; one that succeeds
    with a text of blanks only makes the title operation return
    "Untitled Story". *)
Lemma suggestions_reject_without_key_witness :
  let blanks := {| text := Some (lit "  ") |} in
  getAiSuggestion (Some (lit "k")) (fun _ _ => Returns {| text := None |})
                  (lit "x")
    = Returns MUSE_SILENT
  /\ suggestTitle (Some (lit "k")) (fun _ _ => Returns blanks) (lit "x")
     = Returns UNTITLED.
Proof.
  intros blanks. split.
  - pose proof (suggestions_reject_without_key (lit "k")
                  (fun _ _ => Returns {| text := None |}) (lit "x")) as H.
    destruct H as (_ & _ & _ & _ & _ & Hsilent & _).
    apply Hsilent with (response := {| text := None |}).
    + reflexivity.
    + left; reflexivity.
  - pose proof (suggestions_reject_without_key (lit "k")
                  (fun _ _ => Returns blanks) (lit "x")) as H.
    destruct H as (_ & _ & _ & _ & _ & _ & _ & _ & Huntitled & _).
    apply Huntitled with (response := blanks).
    + reflexivity.
    + right; reflexivity.
Defined.

(** ** The caret tracker *)

Section CaretFacts.

Import CaretTracker.
Local Open Scope Q_scope.

(** The line count read by the tracker is one more than the number of
    line feeds before the caret. *)
Lemma lineCount_newlines (editor : Editor) :
  lineCount editor
  = S (count_occ N.eq_dec (firstn (selectionEnd editor) (value editor)) LF).
Proof. unfold lineCount, split_lines, substring0. apply length_split_from. Qed.

Lemma lineHeight_parsed (fontSize q : Q) (editor : Editor) :
  parsedLineHeight editor = Some q -> ~ q == 0 ->
  lineHeight fontSize editor = q.
Proof.
  intros Hp Hq. unfold lineHeight, num_or. rewrite Hp.
  destruct (Qeq_bool q 0) eqn:E; [|reflexivity].
  apply Qeq_bool_iff in E. contradiction.
Qed.

Lemma lineHeight_fallback (fontSize : Q) (editor : Editor) :
  parsedLineHeight editor = None ->
  lineHeight fontSize editor = fontSize * (3 # 2).
Proof. intros Hp. unfold lineHeight, num_or. now rewrite Hp. Qed.

End CaretFacts.

(** Two readings on a viewport 800 high, with lines 48 high and the
    editor's top at 600: on the second line the caret stands at 696, past
    the threshold 600, and the window scrolls to 296; on the first line
    of an editor whose top is at 500 it stands at 548 and nothing moves. *)
Example caret_scrolls :
  CaretTracker.scrollCaretIntoView 20
    (Some {| CaretTracker.selectionEnd := 3;
             CaretTracker.value := lit "a" ++ [LF] ++ lit "b" ++ [LF] ++ lit "c";
             CaretTracker.parsedLineHeight := Some 48%Q;
             CaretTracker.rectTop := 600%Q |})
    {| CaretTracker.scrollY := 0%Q; CaretTracker.innerHeight := 800%Q |}
  = Some (592 # 2)%Q.
Proof. vm_compute. reflexivity. Qed.

Example caret_rests :
  CaretTracker.scrollCaretIntoView 20
    (Some {| CaretTracker.selectionEnd := 1;
             CaretTracker.value := lit "a" ++ [LF] ++ lit "b";
             CaretTracker.parsedLineHeight := None;
             CaretTracker.rectTop := 500%Q |})
    {| CaretTracker.scrollY := 0%Q; CaretTracker.innerHeight := 800%Q |}
  = None.
Proof. vm_compute. reflexivity. Qed.

(** Over exact rationals: the caret's position in document coordinates
    is the line index of the caret (the number of newline-delimited
    lines of the text before the caret, that is one more than the number
    of line feeds there) times the line height, plus the editor's top,
    plus the scroll offset. A scroll is issued exactly when that
    position exceeds the scroll offset plus 75% of the viewport height,
    and the scroll's target leaves the caret at 50% of the viewport
    height. *)
Lemma caret_follow_exact
    (fontSize : Q) (editor : CaretTracker.Editor) (w : CaretTracker.Window) :
  let lineIndex := CaretTracker.lineCount editor in
  let position :=
    (inject_Z (Z.of_nat lineIndex) * CaretTracker.lineHeight fontSize editor
     + CaretTracker.rectTop editor + CaretTracker.scrollY w)%Q in
  let threshold :=
    (CaretTracker.scrollY w + (75 # 100) * CaretTracker.innerHeight w)%Q in
  lineIndex
  = S (count_occ N.eq_dec
         (firstn (CaretTracker.selectionEnd editor) (CaretTracker.value editor))
         LF)
  /\ (CaretTracker.globalCaretY fontSize editor w == position)%Q
  /\ match CaretTracker.scrollCaretIntoView fontSize (Some editor) w with
     | Some top =>
         (threshold < position)%Q
         /\ (position - top == (50 # 100) * CaretTracker.innerHeight w)%Q
     | None => ~ (threshold < position)%Q
     end.
Proof.
  intros lineIndex position threshold.
  assert (Hpos : (CaretTracker.globalCaretY fontSize editor w == position)%Q).
  { unfold CaretTracker.globalCaretY, CaretTracker.caretOffsetTop, position,
      lineIndex. ring. }
  assert (Hthr : (CaretTracker.lowerThreshold w == threshold)%Q).
  { unfold CaretTracker.lowerThreshold, threshold. field. }
  split; [apply lineCount_newlines|]. split; [exact Hpos|].
  unfold CaretTracker.scrollCaretIntoView.
  destruct (Qlt_le_dec _ _) as [Hlt | Hle].
  - split.
    + rewrite <- Hthr, <- Hpos. exact Hlt.
    + rewrite <- Hpos. field.
  - rewrite <- Hthr, <- Hpos. now apply Qle_not_lt.
Qed.

Section CaretFacts64.

Import CaretTracker64.

Lemma lineCount64_newlines (editor : Editor) :
  lineCount editor
  = S (count_occ N.eq_dec (firstn (selectionEnd editor) (value editor)) LF).
Proof. unfold lineCount, split_lines, substring0. apply length_split_from. Qed.

Lemma SFcompare_refl (f : spec_float) :
  f <> S754_nan -> SFcompare f f = Some Eq.
Proof.
  destruct f as [s|s| |s m e]; intros H; simpl; try reflexivity; try congruence.
  - now destruct s.
  - destruct s; rewrite Z.compare_refl; now rewrite Pos.compare_cont_refl.
Qed.

(** A comparison that holds has no NaN on either side. *)
Lemma ltb_not_nan (x y : float) :
  (x <? y)%float = true -> is_nan x = false /\ is_nan y = false.
Proof.
  rewrite FloatAxioms.ltb_spec. unfold is_nan.
  rewrite !FloatAxioms.eqb_spec. unfold SFltb, SFeqb. intros H.
  assert (Prim2SF x <> S754_nan /\ Prim2SF y <> S754_nan) as [Hx Hy].
  { split; intros E; rewrite E in H; simpl in H; try discriminate.
    destruct (Prim2SF x); discriminate. }
  now rewrite !SFcompare_refl.
Qed.

End CaretFacts64.

(** The same two readings in the numbers of the code, and the numbers
    of some line counts. *)
Example caret64_scrolls :
  CaretTracker64.scrollCaretIntoView 20
    (Some {| CaretTracker64.selectionEnd := 3;
             CaretTracker64.value :=
               lit "a" ++ [LF] ++ lit "b" ++ [LF] ++ lit "c";
             CaretTracker64.parsedLineHeight := 48%float;
             CaretTracker64.rectTop := 600%float |})
    {| CaretTracker64.scrollY := 0%float;
       CaretTracker64.innerHeight := 800%float |}
  = Some 296%float.
Proof. vm_compute. reflexivity. Qed.

Example caret64_rests :
  CaretTracker64.scrollCaretIntoView 20
    (Some {| CaretTracker64.selectionEnd := 1;
             CaretTracker64.value := lit "a" ++ [LF] ++ lit "b";
             CaretTracker64.parsedLineHeight := nan;
             CaretTracker64.rectTop := 500%float |})
    {| CaretTracker64.scrollY := 0%float;
       CaretTracker64.innerHeight := 800%float |}
  = None.
Proof. vm_compute. reflexivity. Qed.

Example ofNat_values :
  CaretTracker64.ofNat 0 = 0%float
  /\ CaretTracker64.ofNat 1 = 1%float
  /\ CaretTracker64.ofNat 3 = 3%float
  /\ CaretTracker64.ofNat 1000 = 1000%float.
Proof. repeat split; vm_compute; reflexivity. Qed.

(** C3, as the code has it. The numbers are binary64 and every
    operation rounds. The line index of the caret is the number of
    newline-delimited lines of the text before the caret, one more than
    the number of line feeds there; the line height is the parsed
    computed line height, or 1.5 times the font size when that is NaN or
    zero; the caret's position in document coordinates is computed as
    the editor's top plus the scroll offset, plus the line index times
    the line height. A scroll is issued exactly when the computed
    position is greater than the computed threshold, the scroll offset
    plus 0.75 times the viewport height, hence never when either is not
    a number; its target is the computed position minus 0.5 times the
    viewport height. Without an editor nothing is scrolled. *)
Theorem caret_follow_contract
    (fontSize : float)
    (editor : CaretTracker64.Editor) (w : CaretTracker64.Window) :
  let lineIndex :=
    S (count_occ N.eq_dec
         (firstn (CaretTracker64.selectionEnd editor)
                 (CaretTracker64.value editor))
         LF) in
  let parsed := CaretTracker64.parsedLineHeight editor in
  let height :=
    if is_nan parsed || is_zero parsed then (fontSize * 1.5)%float
    else parsed in
  let position :=
    (CaretTracker64.rectTop editor + CaretTracker64.scrollY w
     + CaretTracker64.ofNat lineIndex * height)%float in
  let threshold :=
    (CaretTracker64.scrollY w + CaretTracker64.innerHeight w * 0.75)%float in
  CaretTracker64.lineCount editor = lineIndex
  /\ CaretTracker64.lineHeight fontSize editor = height
  /\ CaretTracker64.globalCaretY fontSize editor w = position
  /\ CaretTracker64.scrollCaretIntoView fontSize (Some editor) w
     = (if (threshold <? position)%float
        then Some (position - CaretTracker64.innerHeight w * 0.5)%float
        else None)
  /\ (CaretTracker64.scrollCaretIntoView fontSize (Some editor) w <> None ->
      is_nan position = false /\ is_nan threshold = false)
  /\ CaretTracker64.scrollCaretIntoView fontSize None w = None.
Proof.
  intros lineIndex parsed height position threshold.
  assert (Hcount : CaretTracker64.lineCount editor = lineIndex)
    by apply lineCount64_newlines.
  assert (Hpos : CaretTracker64.globalCaretY fontSize editor w = position).
  { unfold CaretTracker64.globalCaretY, CaretTracker64.caretOffsetTop.
    now rewrite Hcount. }
  assert (Hscroll :
    CaretTracker64.scrollCaretIntoView fontSize (Some editor) w
    = (if (threshold <? position)%float
       then Some (position - CaretTracker64.innerHeight w * 0.5)%float
       else None)).
  { unfold CaretTracker64.scrollCaretIntoView. now rewrite Hpos. }
  split; [exact Hcount|]. split; [reflexivity|]. split; [exact Hpos|].
  split; [exact Hscroll|]. split; [|reflexivity].
  rewrite Hscroll. destruct (threshold <? position)%float eqn:Hlt.
  - intros _. destruct (ltb_not_nan _ _ Hlt). now split.
  - intros H. now destruct H.
Qed.

(** C3 as stated fails, the formulas being read over exact numbers.
    With one line 38.4 high in an editor whose top is at 411.6, in a
    viewport 600 high at scroll offset 0, the exact position,
    450.0000000000000213, exceeds the threshold 450, and the exact
    reading scrolls; the sum computed by the code is 450 and nothing is
    scrolled. With the caret on the third line, lines 38.4 high, the
    editor's top at 600.1 and a viewport 800 high, the code scrolls to
    315.29999999999995, which is not the exact position minus 400. *)
Lemma caret_follow_rounds :
  let editor :=
    {| CaretTracker64.selectionEnd := 0;
       CaretTracker64.value := [];
       CaretTracker64.parsedLineHeight := 38.4%float;
       CaretTracker64.rectTop := 411.6%float |} in
  let w :=
    {| CaretTracker64.scrollY := 0%float;
       CaretTracker64.innerHeight := 600%float |} in
  let editor' :=
    {| CaretTracker64.selectionEnd := 4;
       CaretTracker64.value := lit "a" ++ [LF] ++ lit "b" ++ [LF] ++ lit "c";
       CaretTracker64.parsedLineHeight := 38.4%float;
       CaretTracker64.rectTop := 600.1%float |} in
  let w' :=
    {| CaretTracker64.scrollY := 0%float;
       CaretTracker64.innerHeight := 800%float |} in
  (CaretTracker64.scrollCaretIntoView 20 (Some editor) w = None
   /\ exists editorQ wQ top,
       CaretExact.editor editor = Some editorQ
       /\ CaretExact.window w = Some wQ
       /\ CaretTracker.scrollCaretIntoView 20 (Some editorQ) wQ = Some top)
  /\ (CaretTracker64.scrollCaretIntoView 20 (Some editor') w'
      = Some 315.29999999999995%float
      /\ exists editorQ wQ top target,
          CaretExact.editor editor' = Some editorQ
          /\ CaretExact.window w' = Some wQ
          /\ CaretTracker.scrollCaretIntoView 20 (Some editorQ) wQ = Some top
          /\ CaretTracker64.exact 315.29999999999995%float = Some target
          /\ ~ (target == top)%Q).
Proof.
  cbv zeta. split; split; try (vm_compute; reflexivity).
  - do 3 eexists. repeat split; vm_compute; reflexivity.
  - do 4 eexists. split; [vm_compute; reflexivity|].
    split; [vm_compute; reflexivity|]. split; [vm_compute; reflexivity|].
    split; [vm_compute; reflexivity|]. vm_compute. discriminate.
Qed.

(** ** The component: what the handlers leave alone *)

Section Frames.

Lemma sameSettings_refl s : sameSettings s s.
Proof. now unfold sameSettings. Qed.

Lemma sameSettings_trans s1 s2 s3 :
  sameSettings s1 s2 -> sameSettings s2 s3 -> sameSettings s1 s3.
Proof. unfold sameSettings. intros (-> & -> & ->) (-> & -> & ->). auto. Qed.

Lemma setTimeout_settings k d s : sameSettings s (snd (setTimeout k d s)).
Proof. now unfold sameSettings. Qed.

Lemma clearUiTimeout_settings s : sameSettings s (clearUiTimeout s).
Proof. unfold clearUiTimeout. now destruct (uiTimeoutRef s). Qed.

Lemma runTask_settings k s : sameSettings s (runTask k s).
Proof.
  destruct k; simpl; try apply sameSettings_refl; try easy.
  destruct (_ || _); easy.
Qed.

Lemma fireAll_settings ts s :
  sameSettings s (fold_left (fun s x => runTask (task x) s) ts s).
Proof.
  revert s. induction ts as [|t ts IH]; intros s; simpl.
  - apply sameSettings_refl.
  - eapply sameSettings_trans; [apply runTask_settings | apply IH].
Qed.

Lemma elapse_settings ms s : sameSettings s (elapse ms s).
Proof.
  unfold elapse. destruct (List.partition _ _) as [ripe rest].
  eapply sameSettings_trans; [|apply fireAll_settings]. easy.
Qed.

Lemma handleMouseMove_settings s : sameSettings s (handleMouseMove s).
Proof.
  unfold handleMouseMove, clearUiTimeout. simpl.
  now destruct (uiTimeoutRef s).
Qed.

Lemma handleContentChange_settings v s :
  sameSettings s (handleContentChange v s).
Proof.
  unfold handleContentChange, clearUiTimeout. simpl.
  destruct (showUI s); [|easy]. now destruct (uiTimeoutRef s).
Qed.

Lemma startCall_settings k arg req s : sameSettings s (startCall k arg req s).
Proof. unfold startCall. now destruct (newGoogleGenAI _). Qed.

Lemma handleAiMuse_settings s : sameSettings s (handleAiMuse s).
Proof.
  unfold handleAiMuse. destruct (nonempty _); [|easy].
  eapply sameSettings_trans; [|apply startCall_settings]. easy.
Qed.

Lemma handleSuggestTitle_settings s : sameSettings s (handleSuggestTitle s).
Proof.
  unfold handleSuggestTitle. destruct (nonempty _); [|easy].
  eapply sameSettings_trans; [|apply startCall_settings]. easy.
Qed.

Lemma handleClear_settings b s : sameSettings s (handleClear b s).
Proof. now destruct b. Qed.

Lemma settle_settings id outcome s : sameSettings s (settle id outcome s).
Proof.
  unfold settle. destruct (findCall _ _) as [c|]; [|apply sameSettings_refl].
  destruct (kind c).
  - destruct (getAiSuggestion _ _ _); easy.
  - destruct (suggestTitle _ _ _); easy.
Qed.

(** Every event but a font button and a reload leaves the settings. *)
Lemma dispatch_settings e s :
  match e with
  | ClickFontMinus | ClickFontPlus | Reload => True
  | _ => sameSettings s (dispatch e s)
  end.
Proof.
  destruct e; simpl; try exact I; try easy.
  - apply handleMouseMove_settings.
  - apply handleContentChange_settings.
  - destruct (museDisabled s); [apply sameSettings_refl|].
    eapply sameSettings_trans; [apply handleAiMuse_settings | easy].
  - eapply sameSettings_trans; [apply handleSuggestTitle_settings | easy].
  - eapply sameSettings_trans; [apply handleClear_settings | easy].
  - apply settle_settings.
  - apply elapse_settings.
Qed.

Lemma commit_fontSize prev next : fontSize (commit prev next) = fontSize next.
Proof. unfold commit. now destruct (decide _). Qed.

End Frames.

(** ** The font size *)

Section FontSize.

Local Open Scope Z_scope.

Lemma mount_fontSize key clock store : fontSize (mount key clock store) = 20.
Proof. reflexivity. Qed.

Lemma step_fontInRange e s : fontInRange s -> fontInRange (step e s).
Proof.
  unfold fontInRange. intros Hs.
  assert (He := dispatch_settings e s).
  destruct e; try (unfold step; rewrite commit_fontSize;
                   destruct He as (-> & _); exact Hs).
  - unfold step. rewrite commit_fontSize. simpl. lia.
  - unfold step. rewrite commit_fontSize. simpl. lia.
  - simpl. lia.
Qed.

Lemma run_fontInRange es s : fontInRange s -> fontInRange (run es s).
Proof.
  revert s. induction es as [|e es IH]; intros s Hs; simpl; [exact Hs|].
  apply IH, step_fontInRange, Hs.
Qed.

End FontSize.

(** C8. The font size starts at 20 and stays within [16, 42] after
    every sequence of events; a decrease asked at 16 leaves it at 16
    and an increase asked at 42 leaves it at 42. *)
Theorem font_size_bounds
    (key : option jsstring) (clock : N) (store : gmap string jsstring)
    (es : list Event) (s : State) :
  fontSize (mount key clock store) = 20%Z
  /\ (16 <= fontSize (run es (mount key clock store)) <= 42)%Z
  /\ fontSize (step ClickFontMinus (setFontSize 16 s)) = 16%Z
  /\ fontSize (step ClickFontPlus (setFontSize 42 s)) = 42%Z.
Proof.
  split; [reflexivity|]. split.
  - apply run_fontInRange. unfold fontInRange. rewrite mount_fontSize. lia.
  - split; unfold step; rewrite commit_fontSize; reflexivity.
Qed.

(** ** The component: rendering and the effect *)

Section Commit.

(** The effect writes the store and the word count, nothing else. *)
Lemma commit_fields prev next :
  content (commit prev next) = content next
  /\ title (commit prev next) = title next
  /\ status (commit prev next) = status next
  /\ showUI (commit prev next) = showUI next
  /\ isTypingRef (commit prev next) = isTypingRef next
  /\ uiTimeoutRef (commit prev next) = uiTimeoutRef next
  /\ timers (commit prev next) = timers next
  /\ nextTimer (commit prev next) = nextTimer next
  /\ now (commit prev next) = now next
  /\ pending (commit prev next) = pending next
  /\ nextCall (commit prev next) = nextCall next
  /\ sent (commit prev next) = sent next
  /\ apiKeyEnv (commit prev next) = apiKeyEnv next.
Proof. unfold commit. destruct (decide _); repeat split; reflexivity. Qed.

Lemma commit_content prev next : content (commit prev next) = content next.
Proof. apply commit_fields. Qed.

Lemma commit_title prev next : title (commit prev next) = title next.
Proof. apply commit_fields. Qed.

Lemma commit_status prev next : status (commit prev next) = status next.
Proof. apply commit_fields. Qed.

Lemma commit_showUI prev next : showUI (commit prev next) = showUI next.
Proof. apply commit_fields. Qed.

Lemma commit_pending prev next : pending (commit prev next) = pending next.
Proof. apply commit_fields. Qed.

Lemma commit_sent prev next : sent (commit prev next) = sent next.
Proof. apply commit_fields. Qed.

Lemma commit_timers prev next : timers (commit prev next) = timers next.
Proof. apply commit_fields. Qed.

(** A render that changed neither dependency runs no effect. *)
Lemma commit_unchanged prev next :
  content next = content prev -> title next = title prev ->
  commit prev next = next.
Proof.
  intros Hc Ht. unfold commit. destruct (decide _) as [_|Hn]; [reflexivity|].
  exfalso. apply Hn. now split.
Qed.

End Commit.

(** ** Clearing the draft *)

(** C6, as the code has it. The clear action, confirmed, resets the
    content to the empty string and the title to the fixed string of a
    cleared draft, U+65B0 U+7BC7 U+7AE0, which is not the default title
    of a fresh draft; declined, it leaves content and title as they
    were. This holds in every state, a non-empty draft included. *)
Theorem clear_with_confirmation (s : State) :
  content (step (ClickClear true) s) = []
  /\ title (step (ClickClear true) s) = CLEARED_TITLE
  /\ title (step (ClickClear true) s) <> DEFAULT_TITLE
  /\ content (step (ClickClear false) s) = content s
  /\ title (step (ClickClear false) s) = title s.
Proof.
  unfold step. rewrite !commit_content, !commit_title.
  repeat split. discriminate.
Qed.

(** C6 as stated fails: a fresh draft has the default title; after "a"
    is typed and the clear is confirmed, the title is not the default
    title, neither at once nor after a reload. *)
Lemma cleared_title_is_not_default :
  let fresh := mount None 0 ∅ in
  let cleared := run [Input (lit "a"); ClickClear true] fresh in
  title fresh = DEFAULT_TITLE
  /\ content cleared = []
  /\ title cleared <> DEFAULT_TITLE
  /\ title (step Reload cleared) <> DEFAULT_TITLE.
Proof.
  cbv zeta. split; [reflexivity|]. split; [vm_compute; reflexivity|].
  split; vm_compute; discriminate.
Qed.

(** ** The suggestion actions *)

Section Suggestions.

Lemma handleAiMuse_blank s : trim (content s) = [] -> handleAiMuse s = s.
Proof. intros H. unfold handleAiMuse. now rewrite H. Qed.

Lemma handleSuggestTitle_blank s :
  trim (content s) = [] -> handleSuggestTitle s = s.
Proof. intros H. unfold handleSuggestTitle. now rewrite H. Qed.

(** A click on the continuation button while a call is awaited does
    nothing: the button is disabled. *)
Lemma muse_button_disabled s :
  status s = AI_THINKING -> step ClickMuse s = s.
Proof.
  intros H. unfold step, dispatch, museDisabled. rewrite H. simpl.
  now apply commit_unchanged.
Qed.

End Suggestions.

(** C5. When the content is empty or made of white space only, both
    suggestion handlers return at their guard: the state is unchanged.
    A click on either control then sends no request, awaits no call, and
    leaves content, title and status as they were (an idle application
    stays idle). *)
Theorem empty_content_guard (s : State) (e : Event) :
  trim (content s) = [] ->
  e = ClickMuse \/ e = ClickSuggestTitle ->
  handleAiMuse s = s
  /\ handleSuggestTitle s = s
  /\ sent (step e s) = sent s
  /\ pending (step e s) = pending s
  /\ content (step e s) = content s
  /\ title (step e s) = title s
  /\ status (step e s) = status s.
Proof.
  intros Hblank He.
  pose proof (handleAiMuse_blank s Hblank) as Hm.
  pose proof (handleSuggestTitle_blank s Hblank) as Ht.
  split; [exact Hm|]. split; [exact Ht|].
  destruct He as [-> | ->]; unfold step, dispatch;
    rewrite commit_sent, commit_pending, commit_content, commit_title,
      commit_status.
  - rewrite Hm. destruct (museDisabled s); repeat split.
  - rewrite Ht. repeat split.
Qed.

(** An instance of C5: a fresh draft holding three blanks. *)
Lemma empty_content_guard_witness :
  let s := step (Input (lit "   ")) (mount None 0 ∅) in
  sent (step ClickMuse s) = [] /\ status (step ClickMuse s) = IDLE.
Proof.
  intros s.
  pose proof (empty_content_guard s ClickMuse eq_refl (or_introl eq_refl))
    as (_ & _ & Hsent & _ & _ & _ & Hstatus).
  rewrite Hsent, Hstatus. split; reflexivity.
Defined.

(** ** Awaited calls *)

Section Calls.

Lemma sameCalls_fresh s s' : sameCalls s s' -> callsFresh s -> callsFresh s'.
Proof. unfold sameCalls, callsFresh. now intros (-> & -> & _). Qed.

Lemma fireAll_calls ts s :
  sameCalls s (fold_left (fun s x => runTask (task x) s) ts s).
Proof.
  revert s. induction ts as [|t ts IH]; intros s; simpl; [easy|].
  unfold sameCalls in *.
  destruct (IH (runTask (task t) s)) as (-> & -> & ->).
  destruct (task t); simpl; try easy. now destruct (_ || _).
Qed.

Lemma elapse_calls ms s : sameCalls s (elapse ms s).
Proof.
  unfold elapse. destruct (List.partition _ _) as [ripe rest].
  unfold sameCalls.
  destruct (fireAll_calls ripe (setTimers rest (nextTimer s)
                                  (setNow (now s + ms) s))) as (-> & -> & ->).
  easy.
Qed.

Lemma dropCall_fresh n id cs :
  Forall (fun c => (call_id c < n)%nat) cs ->
  Forall (fun c => (call_id c < n)%nat) (dropCall id cs).
Proof.
  intros H. unfold dropCall. apply List.Forall_forall. intros c Hc.
  apply List.filter_In in Hc as [Hc _].
  rewrite List.Forall_forall in H. now apply H.
Qed.

Lemma startCall_fresh k arg req s :
  callsFresh s -> callsFresh (startCall k arg req s).
Proof.
  unfold callsFresh, startCall. intros H.
  destruct (newGoogleGenAI _); [|exact H]. simpl.
  apply Forall_app. split.
  - eapply Forall_impl; [exact H|]. simpl. intros c Hc. lia.
  - constructor; [simpl; lia | constructor].
Qed.

Lemma settle_fresh id outcome s : callsFresh s -> callsFresh (settle id outcome s).
Proof.
  intros H. unfold settle. destruct (findCall _ _) as [c|]; [|exact H].
  destruct (kind c).
  - destruct (getAiSuggestion _ _ _); unfold callsFresh; simpl;
      now apply dropCall_fresh.
  - destruct (suggestTitle _ _ _); unfold callsFresh; simpl;
      now apply dropCall_fresh.
Qed.

Lemma dispatch_fresh e s : callsFresh s -> callsFresh (dispatch e s).
Proof.
  intros H. destruct e; simpl; try exact H.
  - unfold handleMouseMove, clearUiTimeout. simpl.
    now destruct (uiTimeoutRef s).
  - unfold handleContentChange, clearUiTimeout. simpl.
    destruct (showUI s); [|exact H]. now destruct (uiTimeoutRef s).
  - destruct (museDisabled s); [exact H|]. unfold handleAiMuse.
    destruct (nonempty _); [|exact H].
    now apply (startCall_fresh MuseCall _ _ (setStatus AI_THINKING s)).
  - unfold handleSuggestTitle.
    destruct (nonempty _); [|exact H].
    now apply (startCall_fresh TitleCall _ _ (setStatus AI_THINKING s)).
  - now destruct confirmed.
  - now apply settle_fresh.
  - eapply sameCalls_fresh; [apply elapse_calls | exact H].
  - constructor.
Qed.

Lemma commit_fresh prev next : callsFresh next -> callsFresh (commit prev next).
Proof.
  unfold callsFresh. rewrite commit_pending.
  now replace (nextCall (commit prev next)) with (nextCall next)
    by (symmetry; apply commit_fields).
Qed.

Lemma step_fresh e s : callsFresh s -> callsFresh (step e s).
Proof.
  intros H. apply (dispatch_fresh e) in H.
  destruct e; try exact H; now apply commit_fresh.
Qed.

(** A property of every mounted state that every event preserves
    holds after every sequence of events. *)
Lemma run_invariant (P : State -> Prop) :
  (forall key clock store, P (mount key clock store)) ->
  (forall e s, P s -> P (step e s)) ->
  forall es key clock store, P (run es (mount key clock store)).
Proof.
  intros Hinit Hstep es key clock store.
  generalize (Hinit key clock store).
  generalize (mount key clock store).
  induction es as [|e es IH]; intros s Hs; simpl; [exact Hs|].
  apply IH, Hstep, Hs.
Qed.

Lemma run_fresh es key clock store :
  callsFresh (run es (mount key clock store)).
Proof.
  apply (run_invariant callsFresh); [constructor | apply step_fresh].
Qed.

Lemma findCall_new (cs : list Call) (c : Call) :
  Forall (fun x => (call_id x < call_id c)%nat) cs ->
  findCall (call_id c) (cs ++ [c]) = Some c.
Proof.
  intros H. unfold findCall. induction H as [|x cs Hx _ IH]; simpl.
  - now rewrite Nat.eqb_refl.
  - destruct (Nat.eqb_spec (call_id x) (call_id c)); [lia | exact IH].
Qed.

(** What a click on the continuation button does when it is enabled
    and the content is not blank. *)
Lemma click_muse_starts s k :
  apiKeyEnv s = Some k ->
  nonempty (trim (content s)) = true -> status s <> AI_THINKING ->
  let c := {| call_id := nextCall s; kind := MuseCall; argument := content s |} in
  let s1 := step ClickMuse s in
  status s1 = AI_THINKING /\ pending s1 = pending s ++ [c]
  /\ sent s1 = sent s ++ [museRequest (content s)]
  /\ content s1 = content s /\ title s1 = title s
  /\ apiKeyEnv s1 = apiKeyEnv s.
Proof.
  intros Hk Hne Hst c s1. subst s1. unfold step, dispatch.
  assert (museDisabled s = false) as ->.
  { unfold museDisabled. destruct (status s); try reflexivity. congruence. }
  unfold handleAiMuse, startCall. rewrite Hne. cbn [apiKeyEnv setStatus].
  rewrite Hk. cbn [newGoogleGenAI].
  rewrite commit_unchanged by reflexivity. repeat split. exact Hk.
Qed.

(** What a click on the title control does when the content is not
    blank. *)
Lemma click_title_starts s k :
  apiKeyEnv s = Some k ->
  nonempty (trim (content s)) = true ->
  let c := {| call_id := nextCall s; kind := TitleCall; argument := content s |} in
  let s1 := step ClickSuggestTitle s in
  status s1 = AI_THINKING /\ pending s1 = pending s ++ [c]
  /\ sent s1 = sent s ++ [titleRequest (content s)]
  /\ content s1 = content s /\ title s1 = title s
  /\ apiKeyEnv s1 = apiKeyEnv s.
Proof.
  intros Hk Hne c s1. subst s1. unfold step, dispatch.
  unfold handleSuggestTitle, startCall. rewrite Hne. cbn [apiKeyEnv setStatus].
  rewrite Hk. cbn [newGoogleGenAI].
  rewrite commit_unchanged by reflexivity. repeat split. exact Hk.
Qed.

(** The answer to an awaited continuation call. *)
Lemma settle_muse s k id c outcome :
  apiKeyEnv s = Some k ->
  findCall id (pending s) = Some c -> kind c = MuseCall ->
  let suggestion :=
    match outcome with
    | Returns response => or_else (text response) MUSE_SILENT
    | Throws _ => MUSE_ERROR
    end in
  let s' := step (Settle id outcome) s in
  getAiSuggestion (apiKeyEnv s) (fun _ _ => outcome) (argument c)
    = Returns suggestion
  /\ content s' = content s ++ [LF; LF] ++ suggestion
  /\ title s' = title s /\ status s' = IDLE
  /\ pending s' = dropCall id (pending s) /\ sent s' = sent s.
Proof.
  intros Hk Hfind Hkind suggestion s'. subst s'. rewrite Hk.
  split; [now rewrite getAiSuggestion_unfold|].
  unfold step, dispatch, settle. rewrite Hfind, Hkind.
  rewrite commit_content, commit_title, commit_status, commit_pending,
    commit_sent.
  cbn [apiKeyEnv setCalls]. rewrite Hk.
  rewrite getAiSuggestion_unfold. repeat split.
Qed.

(** The answer to an awaited title call. *)
Lemma settle_title s k id c outcome :
  apiKeyEnv s = Some k ->
  findCall id (pending s) = Some c -> kind c = TitleCall ->
  let newTitle :=
    match outcome with
    | Returns response => or_else (trim <$> text response) UNTITLED
    | Throws _ => UNTITLED
    end in
  let s' := step (Settle id outcome) s in
  suggestTitle (apiKeyEnv s) (fun _ _ => outcome) (argument c)
    = Returns newTitle
  /\ title s' = newTitle
  /\ content s' = content s /\ status s' = IDLE
  /\ pending s' = dropCall id (pending s) /\ sent s' = sent s.
Proof.
  intros Hk Hfind Hkind newTitle s'. subst s'. rewrite Hk.
  split; [now rewrite suggestTitle_unfold|].
  unfold step, dispatch, settle. rewrite Hfind, Hkind.
  rewrite commit_content, commit_title, commit_status, commit_pending,
    commit_sent.
  cbn [apiKeyEnv setCalls]. rewrite Hk.
  rewrite suggestTitle_unfold. repeat split.
Qed.

Lemma commit_apiKey prev next : apiKeyEnv (commit prev next) = apiKeyEnv next.
Proof. apply commit_fields. Qed.

(** The key of the process never changes. *)
Lemma step_apiKey e s : apiKeyEnv (step e s) = apiKeyEnv s.
Proof.
  pose proof (dispatch_settings e s) as H.
  destruct e; try reflexivity; unfold step; rewrite commit_apiKey;
    first [apply H | reflexivity].
Qed.

Lemma run_apiKey es key clock store :
  apiKeyEnv (run es (mount key clock store)) = key.
Proof.
  assert (H : forall s, apiKeyEnv (run es s) = apiKeyEnv s).
  { induction es as [|e es IH]; intros s; simpl; [reflexivity|].
    now rewrite IH, step_apiKey. }
  now rewrite H.
Qed.

Lemma dispatch_keyed e s : keyedCalls s -> keyedCalls (dispatch e s).
Proof.
  unfold keyedCalls. intros H. destruct e; simpl; try exact H.
  - unfold handleMouseMove, clearUiTimeout. simpl.
    now destruct (uiTimeoutRef s).
  - unfold handleContentChange, clearUiTimeout. simpl.
    destruct (showUI s); [|exact H]. now destruct (uiTimeoutRef s).
  - destruct (museDisabled s); [exact H|]. unfold handleAiMuse, startCall.
    destruct (nonempty _); [|exact H]. simpl.
    destruct (apiKeyEnv s) eqn:Hk; simpl; rewrite ?Hk;
      [intros [=] | intros _; now apply H].
  - unfold handleSuggestTitle, startCall.
    destruct (nonempty _); [|exact H]. simpl.
    destruct (apiKeyEnv s) eqn:Hk; simpl; rewrite ?Hk;
      [intros [=] | intros _; now apply H].
  - now destruct confirmed.
  - unfold settle. destruct (findCall _ _) as [c|]; [|exact H].
    assert (Hdrop : apiKeyEnv s = None -> dropCall id (pending s) = [])
      by (intros Hk; now rewrite (H Hk)).
    destruct (kind c).
    + now destruct (getAiSuggestion _ _ _).
    + now destruct (suggestTitle _ _ _).
  - destruct (elapse_calls ms s) as (-> & _).
    destruct (elapse_settings ms s) as (_ & _ & ->). exact H.
  - reflexivity.
Qed.

Lemma step_keyed e s : keyedCalls s -> keyedCalls (step e s).
Proof.
  intros H. apply (dispatch_keyed e) in H.
  destruct e; try exact H;
    (unfold keyedCalls, step; rewrite commit_pending, commit_apiKey;
     exact H).
Qed.

Lemma run_keyed es key clock store : keyedCalls (run es (mount key clock store)).
Proof.
  apply (run_invariant keyedCalls); [|apply step_keyed]. now intros ? ? ? ?.
Qed.

(** In a state reached by the application, an awaited call shows that
    the process has a key. *)
Lemma awaited_has_key es key clock store id c :
  findCall id (pending (run es (mount key clock store))) = Some c ->
  exists k, apiKeyEnv (run es (mount key clock store)) = Some k.
Proof.
  intros Hfind. pose proof (run_keyed es key clock store) as Hkeyed.
  destruct (apiKeyEnv (run es (mount key clock store))) as [k|] eqn:Hk;
    [now exists k|].
  rewrite (Hkeyed Hk) in Hfind. discriminate.
Qed.

End Calls.

(** C4. When the remote continuation call fails, the continuation
    operation catches the error and returns the fixed fallback string;
    the handler appends it to the content like any suggestion and sets
    the status back to idle. This holds of the operation for every
    remote service that fails on the request; of a click, in any state
    reached by an application that has a key, where the content is not
    blank and the control is enabled; and of the answer to any awaited
    continuation call, in any state reached by the application. *)
Theorem continuation_failure_fallback
    (k : jsstring) (key : option jsstring) (clock : N)
    (store : gmap string jsstring) (es : list Event) (e : jsstring)
    (generateContent : GoogleGenAI -> Request -> Exc Response)
    (context : jsstring) (id : nat) (c : Call) :
  let s := run es (mount (Some k) clock store) in
  let s1 := step ClickMuse s in
  let s2 := step (Settle (nextCall s) (Throws e)) s1 in
  let s0 := run es (mount key clock store) in
  (generateContent {| apiKey := Some k |} (museRequest context) = Throws e ->
   getAiSuggestion (Some k) generateContent context = Returns MUSE_ERROR)
  /\ (nonempty (trim (content s)) = true -> status s <> AI_THINKING ->
      status s1 = AI_THINKING
      /\ sent s1 = sent s ++ [museRequest (content s)]
      /\ content s2 = content s ++ [LF; LF] ++ MUSE_ERROR
      /\ status s2 = IDLE)
  /\ (findCall id (pending s0) = Some c -> kind c = MuseCall ->
      content (step (Settle id (Throws e)) s0)
        = content s0 ++ [LF; LF] ++ MUSE_ERROR
      /\ status (step (Settle id (Throws e)) s0) = IDLE).
Proof.
  intros s s1 s2 s0. split; [|split].
  - intros Hcall. rewrite getAiSuggestion_unfold. now rewrite Hcall.
  - intros Hne Hst.
    assert (Hk : apiKeyEnv s = Some k) by apply run_apiKey.
    destruct (click_muse_starts s k Hk Hne Hst)
      as (Hs1 & Hp1 & Hsent & Hc1 & _ & Hk1).
    fold s1 in Hs1, Hp1, Hsent, Hc1, Hk1. rewrite Hk in Hk1.
    assert (Hfind : findCall (nextCall s) (pending s1)
                    = Some {| call_id := nextCall s; kind := MuseCall;
                              argument := content s |}).
    { rewrite Hp1.
      apply (findCall_new (pending s)
               {| call_id := nextCall s; kind := MuseCall;
                  argument := content s |}).
      apply run_fresh. }
    destruct (settle_muse s1 k _ _ (Throws e) Hk1 Hfind eq_refl)
      as (_ & Hc2 & _ & Hs2 & _).
    fold s2 in Hc2, Hs2. rewrite Hc1 in Hc2.
    repeat split; assumption.
  - intros Hfind Hkind.
    destruct (awaited_has_key es key clock store id c Hfind) as [k0 Hk0].
    fold s0 in Hk0.
    destruct (settle_muse s0 k0 id c (Throws e) Hk0 Hfind Hkind)
      as (_ & Hc & _ & Hs & _).
    now split.
Qed.

(** An instance of C4: with the key "k", the draft "a", a click, and a
    failing call. *)
Lemma continuation_failure_fallback_witness :
  let s := run [Input (lit "a")] (mount (Some (lit "k")) 0 ∅) in
  let s2 := step (Settle (nextCall s) (Throws (lit "offline")))
                 (step ClickMuse s) in
  content s2 = content s ++ [LF; LF] ++ MUSE_ERROR /\ status s2 = IDLE.
Proof.
  intros s s2.
  assert (Hne : nonempty (trim (content s)) = true)
    by (vm_compute; reflexivity).
  assert (Hst : status s <> AI_THINKING) by (vm_compute; discriminate).
  pose proof (continuation_failure_fallback (lit "k") None 0 ∅
                [Input (lit "a")] (lit "offline")
                (fun _ _ => Throws (lit "offline")) [] 0
                {| call_id := 0; kind := MuseCall; argument := [] |})
    as (_ & Hclick & _).
  destruct (Hclick Hne Hst) as (_ & _ & Hcontent & Hstatus).
  split; [exact Hcontent | exact Hstatus].
Defined.

(** C7. In any state reached by an application that has a key, where
    the content is not blank, a continuation call that completes makes
    the content the old content, a blank line, and the string the
    continuation operation returned, the title being left alone; a title
    call that completes makes the title the string the title operation
    returned, the content being left alone. More generally, in any state
    reached by the application, the answer to an awaited call is applied
    to the content or title of the moment. *)
Theorem suggestion_result_applied
    (k : jsstring) (key : option jsstring) (clock : N)
    (store : gmap string jsstring) (es : list Event)
    (outcome : Exc Response) (id : nat) (c : Call) :
  let s := run es (mount (Some k) clock store) in
  let s0 := run es (mount key clock store) in
  (nonempty (trim (content s)) = true -> status s <> AI_THINKING ->
   exists suggestion,
     getAiSuggestion (Some k) (fun _ _ => outcome) (content s)
       = Returns suggestion
     /\ content (run [ClickMuse; Settle (nextCall s) outcome] s)
        = content s ++ [LF; LF] ++ suggestion
     /\ title (run [ClickMuse; Settle (nextCall s) outcome] s) = title s)
  /\ (nonempty (trim (content s)) = true ->
      exists newTitle,
        suggestTitle (Some k) (fun _ _ => outcome) (content s)
          = Returns newTitle
        /\ title (run [ClickSuggestTitle; Settle (nextCall s) outcome] s)
           = newTitle
        /\ content (run [ClickSuggestTitle; Settle (nextCall s) outcome] s)
           = content s)
  /\ (findCall id (pending s0) = Some c ->
      match kind c with
      | MuseCall =>
          exists suggestion,
            getAiSuggestion (apiKeyEnv s0) (fun _ _ => outcome) (argument c)
              = Returns suggestion
            /\ content (step (Settle id outcome) s0)
               = content s0 ++ [LF; LF] ++ suggestion
            /\ title (step (Settle id outcome) s0) = title s0
      | TitleCall =>
          exists newTitle,
            suggestTitle (apiKeyEnv s0) (fun _ _ => outcome) (argument c)
              = Returns newTitle
            /\ title (step (Settle id outcome) s0) = newTitle
            /\ content (step (Settle id outcome) s0) = content s0
      end).
Proof.
  intros s s0.
  assert (Hk : apiKeyEnv s = Some k) by apply run_apiKey.
  split; [|split].
  - intros Hne Hst. unfold run. cbn [fold_left].
    destruct (click_muse_starts s k Hk Hne Hst)
      as (_ & Hp1 & _ & Hc1 & Ht1 & Hk1).
    rewrite Hk in Hk1.
    set (c1 := {| call_id := nextCall s; kind := MuseCall;
                  argument := content s |}) in *.
    assert (Hfind : findCall (nextCall s) (pending (step ClickMuse s))
                    = Some c1).
    { rewrite Hp1. apply (findCall_new (pending s) c1), run_fresh. }
    destruct (settle_muse _ k _ _ outcome Hk1 Hfind eq_refl)
      as (Hg & Hc2 & Ht2 & _).
    eexists. rewrite Hk1 in Hg. split; [exact Hg|].
    rewrite Hc2, Ht2, Hc1, Ht1. split; reflexivity.
  - intros Hne. unfold run. cbn [fold_left].
    destruct (click_title_starts s k Hk Hne)
      as (_ & Hp1 & _ & Hc1 & Ht1 & Hk1).
    rewrite Hk in Hk1.
    set (c1 := {| call_id := nextCall s; kind := TitleCall;
                  argument := content s |}) in *.
    assert (Hfind : findCall (nextCall s) (pending (step ClickSuggestTitle s))
                    = Some c1).
    { rewrite Hp1. apply (findCall_new (pending s) c1), run_fresh. }
    destruct (settle_title _ k _ _ outcome Hk1 Hfind eq_refl)
      as (Hg & Ht2 & Hc2 & _).
    eexists. rewrite Hk1 in Hg. split; [exact Hg|].
    rewrite Hc2, Ht2, Hc1. split; reflexivity.
  - intros Hfind.
    destruct (awaited_has_key es key clock store id c Hfind) as [k0 Hk0].
    fold s0 in Hk0. destruct (kind c) eqn:Hkind.
    + destruct (settle_muse s0 k0 id c outcome Hk0 Hfind Hkind)
        as (Hg & Hc & Ht & _).
      eexists. split; [exact Hg|]. split; assumption.
    + destruct (settle_title s0 k0 id c outcome Hk0 Hfind Hkind)
        as (Hg & Ht & Hc & _).
      eexists. split; [exact Hg|]. split; assumption.
Qed.

(** An instance of C7: with the key "k", the draft "Once", whose
    continuation call is answered with " more" and whose title call with
    " Dusk ". *)
Lemma suggestion_result_applied_witness :
  let s := run [Input (lit "Once")] (mount (Some (lit "k")) 0 ∅) in
  let more := Returns {| text := Some (lit " more") |} in
  let dusk := Returns {| text := Some (lit " Dusk ") |} in
  content (run [ClickMuse; Settle (nextCall s) more] s)
    = content s ++ [LF; LF] ++ lit " more"
  /\ title (run [ClickSuggestTitle; Settle (nextCall s) dusk] s) = lit "Dusk".
Proof.
  cbv zeta.
  assert (Hne : nonempty (trim (content (run [Input (lit "Once")]
                                            (mount (Some (lit "k")) 0 ∅))))
                = true)
    by (vm_compute; reflexivity).
  assert (Hst : status (run [Input (lit "Once")] (mount (Some (lit "k")) 0 ∅))
                <> AI_THINKING)
    by (vm_compute; discriminate).
  split.
  - pose proof (suggestion_result_applied (lit "k") None 0 ∅
                  [Input (lit "Once")]
                  (Returns {| text := Some (lit " more") |}) 0
                  {| call_id := 0; kind := MuseCall; argument := [] |})
      as (Hmuse & _).
    destruct (Hmuse Hne Hst) as (suggestion & Hs & Hc & _).
    rewrite Hc. f_equal. f_equal.
    assert (Returns suggestion = Returns (lit " more")) as Heq
      by (rewrite <- Hs; vm_compute; reflexivity).
    now injection Heq.
  - pose proof (suggestion_result_applied (lit "k") None 0 ∅
                  [Input (lit "Once")]
                  (Returns {| text := Some (lit " Dusk ") |}) 0
                  {| call_id := 0; kind := MuseCall; argument := [] |})
      as (_ & Htitle & _).
    destruct (Htitle Hne) as (newTitle & Hs & Ht & _).
    rewrite Ht.
    assert (Returns newTitle = Returns (lit "Dusk")) as Heq
      by (rewrite <- Hs; vm_compute; reflexivity).
    now injection Heq.
Defined.

(** The title control is live in every state: whenever the content is
    not blank, a click on it sends a request, a call being awaited or
    not. *)
Lemma title_click_always_sends s k :
  apiKeyEnv s = Some k ->
  nonempty (trim (content s)) = true ->
  sent (step ClickSuggestTitle s) = sent s ++ [titleRequest (content s)].
Proof.
  intros Hk Hne. now destruct (click_title_starts s k Hk Hne) as (_ & _ & ? & _).
Qed.

(** C1, where the code departs from it. In an application that has a
    key, while a continuation call is awaited the continuation control is
    disabled and a click on it changes nothing; the title control carries
    no such guard, and a click on it in the same state sends a second
    request and awaits a second call. *)
Theorem title_control_not_single_flight (k : jsstring) :
  let s := run [Input (lit "a"); ClickMuse] (mount (Some k) 0 ∅) in
  status s = AI_THINKING
  /\ sent s = [museRequest (lit "a")]
  /\ step ClickMuse s = s
  /\ sent (step ClickSuggestTitle s)
     = [museRequest (lit "a"); titleRequest (lit "a")]
  /\ List.map call_id (pending (step ClickSuggestTitle s)) = [0%nat; 1%nat].
Proof.
  intros s.
  assert (Hs : status s = AI_THINKING) by (vm_compute; reflexivity).
  split; [exact Hs|]. split; [vm_compute; reflexivity|].
  split; [now apply muse_button_disabled|].
  split; vm_compute; reflexivity.
Qed.

(** ** Persistence *)

Section Persistence.

Lemma persist_synced s : synced (persist s).
Proof.
  unfold synced, persist. simpl. split.
  - rewrite lookup_insert_ne by discriminate. apply lookup_insert_eq.
  - apply lookup_insert_eq.
Qed.

Lemma dispatch_localStorage e s :
  e <> Reload -> localStorage (dispatch e s) = localStorage s.
Proof.
  intros He. pose proof (dispatch_settings e s) as H.
  destruct e; try (now destruct H as (_ & ? & _)); try reflexivity.
  congruence.
Qed.

Lemma step_synced e s : synced s -> synced (step e s).
Proof.
  intros Hs.
  assert (Hcommit : e <> Reload -> synced (commit s (dispatch e s))).
  { intros He. unfold commit.
    destruct (decide _) as [[Hc Ht]|_]; [|apply persist_synced].
    unfold synced. rewrite Hc, Ht, (dispatch_localStorage e s He). exact Hs. }
  destruct e; try (apply Hcommit; discriminate).
  apply persist_synced.
Qed.

Lemma run_synced es key clock store : synced (run es (mount key clock store)).
Proof.
  apply (run_invariant synced); [intros; apply persist_synced | apply step_synced].
Qed.

Lemma reload_content s : synced s -> content (step Reload s) = content s.
Proof.
  intros (Hc & _). simpl. rewrite Hc. now destruct (content s).
Qed.

Lemma reload_title s :
  synced s -> title (step Reload s) = or_else (Some (title s)) DEFAULT_TITLE.
Proof. intros (_ & Ht). simpl. now rewrite Ht. Qed.

End Persistence.

(** C2, as the code has it. After the content and the title are
    written, in any state reached by the application, a reload yields
    the written content, and the written title when it is not empty; an
    empty title comes back as the default title of a fresh draft. *)
Theorem persistence_round_trip
    (key : option jsstring) (clock : N) (store : gmap string jsstring)
    (es : list Event) (newTitle newContent : jsstring) :
  let s := run [Input newContent; TitleInput newTitle]
               (run es (mount key clock store)) in
  content s = newContent
  /\ title s = newTitle
  /\ localStorage s !! CONTENT_KEY = Some newContent
  /\ localStorage s !! TITLE_KEY = Some newTitle
  /\ content (step Reload s) = newContent
  /\ title (step Reload s)
     = match newTitle with [] => DEFAULT_TITLE | _ :: _ => newTitle end.
Proof.
  intros s.
  assert (Hsync : synced s).
  { unfold s, run. cbn [fold_left]. apply step_synced, step_synced.
    apply run_synced. }
  assert (Hc : content s = newContent).
  { unfold s, run, step. cbn [fold_left]. rewrite commit_content.
    cbn [dispatch]. unfold setTitle. cbn [content].
    rewrite commit_content. unfold handleContentChange, clearUiTimeout.
    simpl. destruct (showUI _); [|reflexivity].
    now destruct (uiTimeoutRef _). }
  assert (Ht : title s = newTitle).
  { unfold s, run, step. cbn [fold_left]. now rewrite commit_title. }
  split; [exact Hc|]. split; [exact Ht|].
  destruct Hsync as (Hsc & Hst). rewrite Hc in Hsc. rewrite Ht in Hst.
  split; [exact Hsc|]. split; [exact Hst|]. split.
  - rewrite reload_content by (split; congruence). exact Hc.
  - rewrite reload_title by (split; congruence). rewrite Ht.
    now destruct newTitle.
Qed.

(** C2 as stated fails: a title written as the empty string is not the
    title after a reload. *)
Lemma persistence_round_trip_empty_title :
  ~ (forall newTitle newContent : jsstring,
       let s := run [Input newContent; TitleInput newTitle] (mount None 0 ∅) in
       title (step Reload s) = newTitle
       /\ content (step Reload s) = newContent).
Proof.
  intros H. destruct (H [] (lit "x")) as (Ht & _).
  vm_compute in Ht. discriminate Ht.
Qed.

(** ** The visibility of the chrome *)

Section Visibility.

Lemma hideTimers_eq s : hideTimers s = List.filter hides (timers s).
Proof. reflexivity. Qed.

Lemma filter_hides_insert_plain t ts :
  hides t = false ->
  List.filter hides (insertTimer t ts) = List.filter hides ts.
Proof.
  intros Ht. induction ts as [|u ts IH]; simpl.
  - now rewrite Ht.
  - destruct (due u <=? due t); simpl.
    + rewrite IH. reflexivity.
    + now rewrite Ht.
Qed.

Lemma filter_hides_insert_hide t ts :
  hides t = true -> List.filter hides ts = [] ->
  List.filter hides (insertTimer t ts) = [t].
Proof.
  intros Ht. induction ts as [|u ts IH]; simpl; intros Hts.
  - now rewrite Ht.
  - destruct (hides u) eqn:Hu; [discriminate|].
    destruct (due u <=? due t); simpl.
    + rewrite Hu. now apply IH.
    + now rewrite Ht, Hu, Hts.
Qed.

Lemma In_insertTimer t u ts : In u (insertTimer t ts) <-> u = t \/ In u ts.
Proof.
  induction ts as [|x ts IH]; simpl.
  - intuition.
  - destruct (due x <=? due t); simpl; [rewrite IH|]; intuition.
Qed.

Lemma filter_hides_cleared id ts :
  Forall (fun t => hides t = true -> Some id = Some (timer_id t)) ts ->
  List.filter hides
    (List.filter (fun t => negb (timer_id t =? id)%nat) ts) = [].
Proof.
  induction 1 as [|t ts Ht _ IH]; simpl; [reflexivity|].
  destruct (Nat.eqb_spec (timer_id t) id) as [Heq|Hne]; simpl; [exact IH|].
  destruct (hides t) eqn:Hh; [|exact IH].
  specialize (Ht eq_refl). congruence.
Qed.

Lemma filter_hides_unset ts :
  Forall (fun t => hides t = true -> @None nat = Some (timer_id t)) ts ->
  List.filter hides ts = [].
Proof.
  induction 1 as [|t ts Ht _ IH]; simpl; [reflexivity|].
  destruct (hides t) eqn:Hh; [|exact IH].
  specialize (Ht eq_refl). discriminate.
Qed.

(** After [clearUiTimeout] no hide timer is pending. *)
Lemma clearUiTimeout_no_hide s :
  hideOk s -> List.filter hides (timers (clearUiTimeout s)) = [].
Proof.
  intros (Hall & _). unfold clearUiTimeout.
  destruct (uiTimeoutRef s) as [id|]; simpl.
  - now apply filter_hides_cleared.
  - now apply filter_hides_unset.
Qed.

Lemma filter_filter_length {A} (f g : A -> bool) (l : list A) :
  (length (List.filter f (List.filter g l)) <= length (List.filter f l))%nat.
Proof.
  induction l as [|x l IH]; simpl; [lia|].
  destruct (g x) eqn:Hg, (f x) eqn:Hf; simpl; rewrite ?Hf; simpl; lia.
Qed.

(** Removing timers keeps [hideOk]. *)
Lemma hideOk_filter f s s' :
  uiTimeoutRef s' = uiTimeoutRef s ->
  timers s' = List.filter f (timers s) ->
  hideOk s -> hideOk s'.
Proof.
  intros Hr Ht (Hall & Hlen). unfold hideOk, hideTimers.
  fold hides. rewrite Hr, Ht. split.
  - apply List.Forall_forall. intros t Hin.
    apply List.filter_In in Hin as [Hin _].
    rewrite List.Forall_forall in Hall. now apply Hall.
  - etransitivity; [apply filter_filter_length | exact Hlen].
Qed.

(** Adding a timer that is not a hide timer keeps [hideOk]. *)
Lemma hideOk_plain t s s' :
  hides t = false ->
  uiTimeoutRef s' = uiTimeoutRef s ->
  timers s' = insertTimer t (timers s) ->
  hideOk s -> hideOk s'.
Proof.
  intros Hh Hr Ht (Hall & Hlen). unfold hideOk, hideTimers.
  fold hides. rewrite Hr, Ht. split.
  - apply List.Forall_forall. intros u Hin.
    apply In_insertTimer in Hin as [-> | Hin]; [congruence|].
    rewrite List.Forall_forall in Hall. now apply Hall.
  - now rewrite filter_hides_insert_plain.
Qed.

(** Replacing the hide timer: the old one is cleared, the new one is
    recorded in [uiTimeoutRef]. *)
Lemma hideOk_replace t s s' :
  hides t = true ->
  uiTimeoutRef s' = Some (timer_id t) ->
  timers s' = insertTimer t (timers (clearUiTimeout s)) ->
  hideOk s -> hideTimers s' = [t] /\ hideOk s'.
Proof.
  intros Hh Hr Ht Hok.
  assert (Hone : hideTimers s' = [t]).
  { rewrite hideTimers_eq, Ht.
    now apply filter_hides_insert_hide, clearUiTimeout_no_hide. }
  split; [exact Hone|]. unfold hideOk. rewrite Hone. split; [|simpl; lia].
  apply List.Forall_forall. intros u Hin Hu.
  assert (In u (hideTimers s')) as Hin'.
  { rewrite hideTimers_eq. apply List.filter_In. now split. }
  rewrite Hone in Hin'. destruct Hin' as [<- | []]. exact Hr.
Qed.

Lemma hideOk_same s s' :
  uiTimeoutRef s' = uiTimeoutRef s -> timers s' = timers s ->
  hideOk s -> hideOk s'.
Proof.
  intros Hr Ht. unfold hideOk, hideTimers. now rewrite Hr, Ht.
Qed.

End Visibility.

Section VisibilitySteps.

Lemma handleMouseMove_fields s :
  let s' := handleMouseMove s in
  showUI s' = true
  /\ uiTimeoutRef s' = Some (nextTimer s)
  /\ timers s' = insertTimer (mouseTimer s) (timers (clearUiTimeout s))
  /\ now s' = now s /\ isTypingRef s' = isTypingRef s
  /\ content s' = content s /\ title s' = title s.
Proof.
  unfold handleMouseMove, clearUiTimeout, mouseTimer. simpl.
  destruct (uiTimeoutRef s); simpl; repeat split.
Qed.

Lemma handleContentChange_visible v s :
  showUI s = true ->
  let s' := handleContentChange v s in
  showUI s' = true
  /\ uiTimeoutRef s' = Some (nextTimer s)
  /\ timers s' = insertTimer (keyTimer s) (timers (clearUiTimeout s))
  /\ now s' = now s /\ isTypingRef s' = true /\ content s' = v.
Proof.
  intros Hv. unfold handleContentChange, clearUiTimeout, keyTimer.
  rewrite Hv. simpl. destruct (uiTimeoutRef s); simpl; repeat split; exact Hv.
Qed.

Lemma handleContentChange_hidden v s :
  showUI s = false ->
  let s' := handleContentChange v s in
  showUI s' = false /\ uiTimeoutRef s' = uiTimeoutRef s
  /\ timers s' = timers s.
Proof.
  intros Hv. unfold handleContentChange. rewrite Hv. simpl.
  repeat split; exact Hv.
Qed.

Lemma fireAll_timers ts s :
  let s' := fold_left (fun s x => runTask (task x) s) ts s in
  timers s' = timers s /\ uiTimeoutRef s' = uiTimeoutRef s
  /\ now s' = now s.
Proof.
  revert s. induction ts as [|t ts IH]; intros s; simpl; [easy|].
  destruct (IH (runTask (task t) s)) as (-> & -> & ->).
  destruct (task t); simpl; try easy. now destruct (_ || _).
Qed.

Lemma elapse_unfold ms s :
  elapse ms s =
  fold_left (fun s x => runTask (task x) s) (ripeTimers ms s)
    (setTimers
       (List.filter (fun x => negb (due x <=? now s + ms)) (timers s))
       (nextTimer s) (setNow (now s + ms) s)).
Proof. unfold elapse. now rewrite List.partition_as_filter. Qed.

Lemma dispatch_hideOk e s : hideOk s -> hideOk (dispatch e s).
Proof.
  intros Hok. destruct e; simpl;
    try (apply (hideOk_same s); [reflexivity | reflexivity | exact Hok]).
  - destruct (handleMouseMove_fields s) as (_ & Hr & Ht & _).
    now apply (hideOk_replace (mouseTimer s) s).
  - destruct (showUI s) eqn:Hv.
    + destruct (handleContentChange_visible v s Hv) as (_ & Hr & Ht & _).
      now apply (hideOk_replace (keyTimer s) s).
    + destruct (handleContentChange_hidden v s Hv) as (_ & Hr & Ht).
      now apply (hideOk_same s).
  - now apply (hideOk_plain
                 {| timer_id := nextTimer s; due := now s + 250;
                    task := StopTyping |} s).
  - destruct (museDisabled s); [exact Hok|]. unfold handleAiMuse, startCall.
    destruct (nonempty _); [destruct (newGoogleGenAI _)|];
      now apply (hideOk_same s).
  - unfold handleSuggestTitle, startCall.
    destruct (nonempty _); [destruct (newGoogleGenAI _)|];
      now apply (hideOk_same s).
  - destruct confirmed; now apply (hideOk_same s).
  - unfold settle. destruct (findCall _ _) as [c|]; [|exact Hok].
    destruct (kind c).
    + destruct (getAiSuggestion _ _ _); [|now apply (hideOk_same s)].
      now apply (hideOk_plain
                   {| timer_id := nextTimer s; due := now s + 100;
                      task := ScrollToBottom |} s).
    + destruct (suggestTitle _ _ _); now apply (hideOk_same s).
  - rewrite elapse_unfold.
    destruct (fireAll_timers (ripeTimers ms s)
                (setTimers
                   (List.filter (fun x => negb (due x <=? now s + ms))
                                (timers s))
                   (nextTimer s) (setNow (now s + ms) s)))
      as (Ht & Hr & _).
    now apply (hideOk_filter (fun x => negb (due x <=? now s + ms)) s).
  - split; [constructor | simpl; lia].
Qed.

Lemma step_hideOk e s : hideOk s -> hideOk (step e s).
Proof.
  intros Hok. apply (dispatch_hideOk e) in Hok.
  destruct e; try exact Hok;
    (eapply hideOk_same; [| | exact Hok]; apply commit_fields).
Qed.

Lemma run_hideOk es key clock store : hideOk (run es (mount key clock store)).
Proof.
  apply (run_invariant hideOk); [|apply step_hideOk].
  intros. split; [constructor | simpl; lia].
Qed.

End VisibilitySteps.

Section Expiry.

Lemma fireAll_visibility ts s :
  let s' := fold_left (fun s x => runTask (task x) s) ts s in
  (isTypingRef s', showUI s') = visAfter ts (isTypingRef s) (showUI s).
Proof.
  revert s. induction ts as [|t ts IH]; intros s; simpl; [reflexivity|].
  rewrite IH. destruct (task t); simpl; try reflexivity.
  now destruct (_ || _).
Qed.

Lemma elapse_visibility ms s :
  showUI (step (Elapse ms) s)
  = snd (visAfter (ripeTimers ms s) (isTypingRef s) (showUI s)).
Proof.
  unfold step. rewrite commit_showUI. cbn [dispatch]. rewrite elapse_unfold.
  pose proof (fireAll_visibility (ripeTimers ms s)
                (setTimers
                   (List.filter (fun x => negb (due x <=? now s + ms))
                                (timers s))
                   (nextTimer s) (setNow (now s + ms) s))) as H.
  cbv zeta in H. simpl isTypingRef in H at 2. simpl showUI in H at 2.
  now rewrite <- H.
Qed.

Lemma visAfter_no_hide ts typing vis :
  Forall (fun t => hides t = false) ts -> snd (visAfter ts typing vis) = vis.
Proof.
  intros H. revert typing. induction H as [|t ts Ht _ IH]; intros typing;
    simpl; [reflexivity|].
  unfold hides in Ht. destruct (task t); try discriminate; apply IH.
Qed.

Lemma visAfter_hidden ts typing : snd (visAfter ts typing false) = false.
Proof.
  revert typing. induction ts as [|t ts IH]; intros typing; simpl;
    [reflexivity|].
  destruct (task t); try apply IH. now destruct (_ || _).
Qed.

Lemma visAfter_hides t ts typing vis :
  In t ts ->
  task t = HideUI \/ (exists c, task t = HideIfActive c /\ nonempty c = true) ->
  snd (visAfter ts typing vis) = false.
Proof.
  intros Hin Ht. revert typing vis.
  induction ts as [|u ts IH]; intros typing vis; [destruct Hin|].
  destruct Hin as [-> | Hin].
  - simpl. destruct Ht as [-> | (c & -> & Hc)].
    + apply visAfter_hidden.
    + rewrite Hc, orb_true_r. apply visAfter_hidden.
  - simpl. destruct (task u); now apply IH.
Qed.

Lemma visAfter_idle ts vis :
  Forall (fun t => hides t = true -> task t = HideIfActive []) ts ->
  visAfter ts false vis = (false, vis).
Proof.
  induction 1 as [|t ts Ht _ IH]; simpl; [reflexivity|].
  unfold hides in Ht. destruct (task t) as [c| | |]; simpl in Ht; try exact IH.
  - specialize (Ht eq_refl). injection Ht as ->. exact IH.
  - specialize (Ht eq_refl). discriminate.
Qed.

(** In a state whose only hide timer is [t]: *)
Lemma ripe_before ms t s :
  hideTimers s = [t] -> now s + ms < due t ->
  Forall (fun u => hides u = false) (ripeTimers ms s).
Proof.
  intros Hone Hlt. apply List.Forall_forall. intros u Hu.
  apply List.filter_In in Hu as [Hin Hdue].
  destruct (hides u) eqn:Hh; [|reflexivity].
  assert (In u (hideTimers s)) as Hin'
    by (rewrite hideTimers_eq; apply List.filter_In; now split).
  rewrite Hone in Hin'. destruct Hin' as [<- | []].
  apply N.leb_le in Hdue. lia.
Qed.

Lemma ripe_at ms t s :
  hideTimers s = [t] -> due t <= now s + ms -> In t (ripeTimers ms s).
Proof.
  intros Hone Hle.
  assert (In t (hideTimers s)) as Hin by (rewrite Hone; now left).
  rewrite hideTimers_eq in Hin. apply List.filter_In in Hin as [Hin _].
  apply List.filter_In. split; [exact Hin|]. now apply N.leb_le.
Qed.

Lemma ripe_only ms t s :
  hideTimers s = [t] ->
  Forall (fun u => hides u = true -> u = t) (ripeTimers ms s).
Proof.
  intros Hone. apply List.Forall_forall. intros u Hu Hh.
  apply List.filter_In in Hu as [Hin _].
  assert (In u (hideTimers s)) as Hin'
    by (rewrite hideTimers_eq; apply List.filter_In; now split).
  rewrite Hone in Hin'. now destruct Hin' as [<- | []].
Qed.

(** The state after a pointer movement. *)
Lemma moved_fields s :
  hideOk s ->
  let m := step MouseMove s in
  showUI m = true /\ hideTimers m = [mouseTimer s]
  /\ uiTimeoutRef m = Some (nextTimer s)
  /\ now m = now s /\ isTypingRef m = isTypingRef s.
Proof.
  intros Hok m. subst m. unfold step. cbn [dispatch].
  destruct (handleMouseMove_fields s) as (Hv & Hr & Ht & Hn & Hty & Hc & Htl).
  rewrite commit_unchanged by assumption.
  destruct (hideOk_replace (mouseTimer s) s (handleMouseMove s)
              eq_refl Hr Ht Hok) as (Hone & _).
  repeat split; assumption.
Qed.

(** The state after a keystroke made while the chrome is visible. *)
Lemma typed_fields v s :
  hideOk s -> showUI s = true ->
  let k := step (Input v) s in
  showUI k = true /\ hideTimers k = [keyTimer s]
  /\ uiTimeoutRef k = Some (nextTimer s)
  /\ now k = now s /\ isTypingRef k = true.
Proof.
  intros Hok Hvis k. subst k. unfold step. cbn [dispatch].
  destruct (handleContentChange_visible v s Hvis) as (Hv & Hr & Ht & Hn & Hty & _).
  destruct (hideOk_replace (keyTimer s) s (handleContentChange v s)
              eq_refl Hr Ht Hok) as (Hone & _).
  pose proof (commit_fields s (handleContentChange v s))
    as (_ & _ & _ & Cv & Cty & Cr & Ct & _ & Cn & _).
  unfold hideTimers. rewrite Cv, Cty, Cr, Ct, Cn.
  repeat split; assumption.
Qed.

End Expiry.

Section Pending.

Lemma filter_split_length {A} (h f : A -> bool) (l : list A) :
  length (List.filter h l)
  = (length (List.filter h (List.filter f l))
     + length (List.filter h (List.filter (fun x => negb (f x)) l)))%nat.
Proof.
  induction l as [|x l IH]; simpl; [reflexivity|].
  destruct (f x), (h x) eqn:Hh; simpl; rewrite ?Hh; simpl; lia.
Qed.

Lemma filter_nil_Forall {A} (h : A -> bool) (l : list A) :
  List.filter h l = [] -> Forall (fun u => h u = false) l.
Proof.
  induction l as [|x l IH]; simpl; [constructor|].
  destruct (h x) eqn:Hh; [discriminate|]. intros H. constructor; auto.
Qed.

(** With at most one hide timer pending, one that is not yet due
    means none is due. *)
Lemma hide_pending_none_ripe ms s t :
  hideOk s ->
  In t (List.filter (fun x => negb (due x <=? now s + ms)) (timers s)) ->
  hides t = true ->
  Forall (fun u => hides u = false) (ripeTimers ms s).
Proof.
  intros (_ & Hlen) Hin Hh. apply filter_nil_Forall.
  pose proof (filter_split_length hides (fun x => due x <=? now s + ms)
                (timers s)) as Hsplit.
  assert (In t (List.filter hides
                  (List.filter (fun x => negb (due x <=? now s + ms))
                               (timers s)))) as Hin'
    by (apply List.filter_In; now split).
  unfold hideTimers in Hlen. fold hides in Hlen. unfold ripeTimers.
  destruct (List.filter hides
              (List.filter (fun x => negb (due x <=? now s + ms)) (timers s)));
    [destruct Hin'|].
  destruct (List.filter hides
              (List.filter (fun x => due x <=? now s + ms) (timers s)));
    [reflexivity|].
  simpl in Hsplit. lia.
Qed.

Lemma shown_same s s' :
  showUI s' = showUI s -> timers s' = timers s ->
  shownWhilePending s -> shownWhilePending s'.
Proof. unfold shownWhilePending. now intros -> ->. Qed.

Lemma shown_visible s : showUI s = true -> shownWhilePending s.
Proof.
  intros H. unfold shownWhilePending. rewrite H.
  apply List.Forall_forall. reflexivity.
Qed.

Lemma shown_plain t s s' :
  hides t = false -> showUI s' = showUI s ->
  timers s' = insertTimer t (timers s) ->
  shownWhilePending s -> shownWhilePending s'.
Proof.
  unfold shownWhilePending. intros Hh -> -> Hs.
  apply List.Forall_forall. intros u Hin.
  apply In_insertTimer in Hin as [-> | Hin]; [congruence|].
  rewrite List.Forall_forall in Hs. now apply Hs.
Qed.

Lemma dispatch_shown e s :
  hideOk s -> shownWhilePending s -> shownWhilePending (dispatch e s).
Proof.
  intros Hok Hs. destruct e; simpl;
    try (apply (shown_same s); [reflexivity | reflexivity | exact Hs]).
  - apply shown_visible, handleMouseMove_fields.
  - destruct (showUI s) eqn:Hv.
    + now apply shown_visible, handleContentChange_visible.
    + destruct (handleContentChange_hidden v s Hv) as (Hv' & _ & Ht).
      apply (shown_same s); [congruence | exact Ht | exact Hs].
  - now apply (shown_plain
                 {| timer_id := nextTimer s; due := now s + 250;
                    task := StopTyping |} s).
  - destruct (museDisabled s); [exact Hs|]. unfold handleAiMuse, startCall.
    destruct (nonempty _); [destruct (newGoogleGenAI _)|];
      now apply (shown_same s).
  - unfold handleSuggestTitle, startCall.
    destruct (nonempty _); [destruct (newGoogleGenAI _)|];
      now apply (shown_same s).
  - destruct confirmed; now apply (shown_same s).
  - unfold settle. destruct (findCall _ _) as [c|]; [|exact Hs].
    destruct (kind c).
    + destruct (getAiSuggestion _ _ _); [|now apply (shown_same s)].
      now apply (shown_plain
                   {| timer_id := nextTimer s; due := now s + 100;
                      task := ScrollToBottom |} s).
    + destruct (suggestTitle _ _ _); now apply (shown_same s).
  - unfold shownWhilePending. apply List.Forall_forall. intros t Hin Hh.
    rewrite elapse_unfold in Hin |- *.
    set (s0 := setTimers _ _ _) in *.
    destruct (fireAll_timers (ripeTimers ms s) s0) as (Ht & _).
    pose proof (fireAll_visibility (ripeTimers ms s) s0) as Hvis.
    cbv zeta in Ht, Hvis. rewrite Ht in Hin. simpl in Hin.
    assert (showUI (fold_left (fun s x => runTask (task x) s)
                      (ripeTimers ms s) s0)
            = snd (visAfter (ripeTimers ms s) (isTypingRef s) (showUI s)))
      as -> by (simpl in Hvis; now rewrite <- Hvis).
    rewrite visAfter_no_hide
      by (eapply hide_pending_none_ripe; eassumption).
    apply List.filter_In in Hin as [Hin _].
    unfold shownWhilePending in Hs. rewrite List.Forall_forall in Hs.
    now apply (Hs t).
  - constructor.
Qed.

Lemma run_shown es key clock store :
  shownWhilePending (run es (mount key clock store)).
Proof.
  apply (run_invariant (fun s => hideOk s /\ shownWhilePending s)).
  - intros. split; [split; [constructor | simpl; lia] | constructor].
  - intros e s (Hok & Hs). split; [now apply step_hideOk|].
    apply (dispatch_shown e) in Hs; [|exact Hok].
    destruct e; try exact Hs;
      (eapply shown_same; [| | exact Hs]; apply commit_fields).
Qed.

End Pending.

(** The visibility of the chrome, as the code runs it. In any state
    reached by the application: a pointer movement shows the chrome, cancels the pending hide timer
    and leaves exactly one, due in 4 seconds; that timer's callback
    hides the chrome exactly when the user is typing at expiry or the
    content was not empty when the pointer moved (the callback closes
    over the content of that render), and otherwise the chrome remains
    shown; a keystroke made while the chrome is shown cancels the
    pending hide timer and leaves exactly one, due in 2 seconds, whose
    callback hides the chrome unconditionally; a keystroke made while
    the chrome is hidden changes no timer; at most one hide timer is
    ever pending, and the chrome is shown for as long as one is. *)
Theorem ui_visibility_machine
    (key : option jsstring) (clock : N) (store : gmap string jsstring)
    (es : list Event) (v : jsstring) (ms : N) :
  let s := run es (mount key clock store) in
  let moved := step MouseMove s in
  let typed := step (Input v) s in
  showUI moved = true
  /\ hideTimers moved
     = [{| timer_id := nextTimer s; due := now s + 4000;
           task := HideIfActive (content s) |}]
  /\ uiTimeoutRef moved = Some (nextTimer s)
  /\ (forall s',
        showUI (runTask (HideIfActive (content s)) s')
        = if isTypingRef s' || nonempty (content s) then false else showUI s')
  /\ (ms < 4000 -> showUI (step (Elapse ms) moved) = true)
  /\ (4000 <= ms -> nonempty (content s) = true ->
      showUI (step (Elapse ms) moved) = false)
  /\ (content s = [] -> isTypingRef s = false ->
      showUI (step (Elapse ms) moved) = true)
  /\ (showUI s = true ->
      hideTimers typed
      = [{| timer_id := nextTimer s; due := now s + 2000; task := HideUI |}]
      /\ uiTimeoutRef typed = Some (nextTimer s)
      /\ (ms < 2000 -> showUI (step (Elapse ms) typed) = true)
      /\ (2000 <= ms -> showUI (step (Elapse ms) typed) = false))
  /\ (showUI s = false -> timers typed = timers s /\ showUI typed = false)
  /\ (forall s', showUI (runTask HideUI s') = false)
  /\ (length (hideTimers s) <= 1)%nat
  /\ (forall t, In t (hideTimers s) -> showUI s = true).
Proof.
  intros s moved typed.
  assert (Hok : hideOk s) by apply run_hideOk.
  destruct (moved_fields s Hok) as (Mv & Mone & Mr & Mn & Mty).
  fold moved in Mv, Mone, Mr, Mn, Mty.
  split; [exact Mv|]. split; [exact Mone|]. split; [exact Mr|].
  split.
  { intros s'. simpl. now destruct (_ || _). }
  split.
  { intros Hms. rewrite elapse_visibility, Mv.
    apply visAfter_no_hide, (ripe_before ms (mouseTimer s)); [exact Mone|].
    rewrite Mn. simpl. lia. }
  split.
  { intros Hms Hne. rewrite elapse_visibility.
    apply (visAfter_hides (mouseTimer s)).
    - apply ripe_at; [exact Mone|]. rewrite Mn. simpl. lia.
    - right. now exists (content s). }
  split.
  { intros Hc Hty. rewrite elapse_visibility, Mv, Mty, Hty.
    rewrite visAfter_idle; [reflexivity|].
    eapply Forall_impl; [apply (ripe_only ms (mouseTimer s)), Mone|].
    simpl. intros u Hu Hh. rewrite (Hu Hh). simpl. now rewrite Hc. }
  split.
  { intros Hvis.
    destruct (typed_fields v s Hok Hvis) as (Kv & Kone & Kr & Kn & Kty).
    fold typed in Kv, Kone, Kr, Kn, Kty.
    split; [exact Kone|]. split; [exact Kr|]. split.
    - intros Hms. rewrite elapse_visibility, Kv.
      apply visAfter_no_hide, (ripe_before ms (keyTimer s)); [exact Kone|].
      rewrite Kn. simpl. lia.
    - intros Hms. rewrite elapse_visibility.
      apply (visAfter_hides (keyTimer s)).
      + apply ripe_at; [exact Kone|]. rewrite Kn. simpl. lia.
      + now left. }
  split.
  { intros Hvis.
    destruct (handleContentChange_hidden v s Hvis) as (Hv & _ & Ht).
    unfold typed, step. rewrite commit_timers, commit_showUI.
    now split. }
  split; [reflexivity|]. split; [apply Hok|].
  intros t Hin. apply List.filter_In in Hin as [Hin Hh].
  pose proof (run_shown es key clock store) as Hshown.
  unfold shownWhilePending in Hshown. rewrite List.Forall_forall in Hshown.
  now apply (Hshown t).
Qed.

(** An instance: after the draft "a" is typed and the pointer
    moves, the chrome is still shown 3999 ms later and hidden at
    4000 ms. *)
Lemma ui_visibility_machine_witness :
  let s := run [Input (lit "a")] (mount None 0 ∅) in
  showUI (step (Elapse 3999) (step MouseMove s)) = true
  /\ showUI (step (Elapse 4000) (step MouseMove s)) = false.
Proof.
  cbv zeta. split.
  - pose proof (ui_visibility_machine None 0 ∅ [Input (lit "a")] [] 3999)
      as (_ & _ & _ & _ & Hbefore & _).
    apply Hbefore. reflexivity.
  - pose proof (ui_visibility_machine None 0 ∅ [Input (lit "a")] [] 4000)
      as (_ & _ & _ & _ & _ & Hat & _).
    apply Hat; [discriminate | vm_compute; reflexivity].
Defined.

(** C9, where the code departs from it: a pointer movement over the
    draft "a", then a confirmed clear. The callback of the 4-second
    timer tests the content captured when the pointer moved, not the
    content at expiry: when the timer expires the user is not typing and
    the content is empty, yet the chrome is hidden. *)
Lemma hide_timer_reads_stale_content :
  let s := run [Input (lit "a"); MouseMove; ClickClear true] (mount None 0 ∅) in
  hideTimers s
  = [{| timer_id := 2; due := 4000; task := HideIfActive (lit "a") |}]
  /\ showUI s = true /\ isTypingRef s = false /\ content s = []
  /\ showUI (step (Elapse 3999) s) = true
  /\ showUI (step (Elapse 4000) s) = false
  /\ isTypingRef (step (Elapse 4000) s) = false
  /\ content (step (Elapse 4000) s) = []
  /\ ~ (showUI (step (Elapse 4000) s) = false
        <-> isTypingRef s = true \/ content s <> []).
Proof.
  cbv zeta. do 8 (split; [vm_compute; reflexivity|]).
  intros [Hhide _].
  assert (H : showUI (step (Elapse 4000)
                        (run [Input (lit "a"); MouseMove; ClickClear true]
                             (mount None 0 ∅))) = false)
    by (vm_compute; reflexivity).
  destruct (Hhide H) as [Hty | Hc].
  - vm_compute in Hty. discriminate Hty.
  - apply Hc. vm_compute. reflexivity.
Qed.

(** * Further properties of the code *)

Import AppView.

(** ** What the requests carry *)

Section Requests.

Lemma slice_last_length (n : nat) (s : jsstring) :
  length (slice_last n s) = Nat.min n (length s).
Proof. unfold slice_last. rewrite length_skipn. lia. Qed.

Lemma slice_first_length (n : nat) (s : jsstring) :
  length (slice_first n s) = Nat.min n (length s).
Proof. unfold slice_first. apply length_firstn. Qed.

End Requests.

(** X1. The continuation request is made of the last 1000 code units
    of the draft, the whole draft when it is shorter, and of nothing
    older: its text is a fixed head of 185 code units (the prompt of the
    empty draft up to its opening quote), then those code units, then
    the closing quote; so a draft and its last 1000 code units give the
    same request. The model and the temperature do not depend on the
    draft. *)
Theorem muse_request_window :
  exists head : jsstring,
    length head = 185%nat
    /\ contents (museRequest []) = head ++ [QUOTE]
    /\ forall context : jsstring,
        exists older recent : jsstring,
          context = older ++ recent
          /\ length recent = Nat.min 1000 (length context)
          /\ contents (museRequest context) = head ++ recent ++ [QUOTE]
          /\ model (museRequest context) = model (museRequest [])
          /\ temperature (museRequest context) = Some (8 # 10)%Q
          /\ museRequest context = museRequest recent.
Proof.
  eexists. split; [|split].
  2: { unfold museRequest, musePrompt. cbn [contents slice_last].
       rewrite !app_assoc. reflexivity. }
  { rewrite !length_app.
    change (length (lit "You are a literary co-writer. Based on the following snippet from a novel, provide a creative and atmospheric next few sentences. Keep the tone consistent."))
      with 155%nat.
    reflexivity. }
  intros context.
  exists (firstn (length context - 1000) context), (slice_last 1000 context).
  split; [symmetry; apply firstn_skipn|].
  split; [apply slice_last_length|].
  split.
  { unfold museRequest, musePrompt. cbn [contents skipn length Nat.sub].
    rewrite !app_nil_r, <- !app_assoc. reflexivity. }
  split; [reflexivity|]. split; [reflexivity|].
  unfold museRequest, musePrompt. do 4 f_equal.
  unfold slice_last at 2. rewrite slice_last_length.
  replace (Nat.min 1000 (length context) - 1000)%nat with 0%nat by lia.
  reflexivity.
Qed.

(** X2. The title request is made of the first 2000 code units of the
    draft, the whole draft when it is shorter, and of nothing later: its
    text is a fixed head of 130 code units (the prompt of the empty
    draft up to its opening quote), then those code units, then the
    closing quote; so a draft and its first 2000 code units give the
    same request. The model does not depend on the draft and no
    temperature is set. *)
Theorem title_request_window :
  exists head : jsstring,
    length head = 130%nat
    /\ contents (titleRequest []) = head ++ [QUOTE]
    /\ forall content : jsstring,
        exists first later : jsstring,
          content = first ++ later
          /\ length first = Nat.min 2000 (length content)
          /\ contents (titleRequest content) = head ++ first ++ [QUOTE]
          /\ model (titleRequest content) = model (titleRequest [])
          /\ temperature (titleRequest content) = None
          /\ titleRequest content = titleRequest first.
Proof.
  eexists. split; [|split].
  2: { unfold titleRequest, titlePrompt. cbn [contents slice_first firstn].
       rewrite !app_assoc. reflexivity. }
  { rewrite !length_app.
    change (length (lit "Read this story and suggest a short, poetic title (max 5 words). "))
      with 65%nat.
    reflexivity. }
  intros content.
  exists (slice_first 2000 content), (skipn 2000 content).
  split; [symmetry; apply firstn_skipn|].
  split; [apply slice_first_length|].
  split.
  { unfold titleRequest, titlePrompt. cbn [contents].
    rewrite <- !app_assoc. reflexivity. }
  split; [reflexivity|]. split; [reflexivity|].
  unfold titleRequest, titlePrompt. do 4 f_equal.
  unfold slice_first. rewrite firstn_firstn. now rewrite Nat.min_id.
Qed.

(** ** Trimming *)

Section Trimming.

Context {A : Type} (p : A -> bool).

Lemma dropWhile_suffix (l : list A) : exists z, l = z ++ dropWhile p l.
Proof.
  induction l as [|x l [z Hz]]; simpl; [now exists []|].
  destruct (p x); [|now exists []].
  exists (x :: z). simpl. now f_equal.
Qed.

Lemma dropWhile_head (l : list A) (c : A) (r : list A) :
  dropWhile p l = c :: r -> p c = false.
Proof.
  induction l as [|x l IH]; simpl; [discriminate|].
  destruct (p x) eqn:Hx; [exact IH|]. intros H. injection H as -> _. exact Hx.
Qed.

Lemma dropWhile_clean (l : list A) (c : A) (r : list A) :
  l = c :: r -> p c = false -> dropWhile p l = l.
Proof. intros -> Hc. simpl. now rewrite Hc. Qed.

Lemma dropWhile_idem (l : list A) : dropWhile p (dropWhile p l) = dropWhile p l.
Proof.
  destruct (dropWhile p l) as [|c r] eqn:E; [reflexivity|].
  apply (dropWhile_clean _ c r eq_refl), (dropWhile_head l c r E).
Qed.

End Trimming.

Section TrimFacts.

Lemma trimEnd_prefix (s : jsstring) : exists z, s = trimEnd s ++ z.
Proof.
  unfold trimEnd. destruct (dropWhile_suffix is_white (rev s)) as [z Hz].
  exists (rev z). rewrite <- rev_app_distr, <- Hz. symmetry. apply rev_involutive.
Qed.

Lemma trimEnd_idem (s : jsstring) : trimEnd (trimEnd s) = trimEnd s.
Proof. unfold trimEnd. now rewrite rev_involutive, dropWhile_idem. Qed.

(** A trimmed string begins with no white space. *)
Lemma trim_head (s : jsstring) (c : N) (r : jsstring) :
  trim s = c :: r -> is_white c = false.
Proof.
  unfold trim, trimStart. intros H.
  destruct (trimEnd_prefix (dropWhile is_white s)) as [z Hz].
  rewrite H in Hz. simpl in Hz. now apply dropWhile_head in Hz.
Qed.

(** A trimmed string ends with no white space. *)
Lemma trim_last (s : jsstring) (c : N) (r : jsstring) :
  trim s = r ++ [c] -> is_white c = false.
Proof.
  unfold trim, trimEnd. intros H.
  apply (f_equal (@rev N)) in H. rewrite rev_involutive, rev_app_distr in H.
  simpl in H. now apply dropWhile_head in H.
Qed.

Lemma trim_idem (s : jsstring) : trim (trim s) = trim s.
Proof.
  destruct (trim s) as [|c r] eqn:E; [reflexivity|].
  pose proof (trim_head s c r E) as Hc.
  unfold trim at 1. unfold trimStart. simpl. rewrite Hc.
  rewrite <- E. unfold trim. apply trimEnd_idem.
Qed.

Lemma trim_UNTITLED : trim UNTITLED = UNTITLED.
Proof. vm_compute. reflexivity. Qed.

End TrimFacts.

(** X3. With a key, whatever the remote call does, the title
    operation returns, and the title it returns is not empty and is
    trimmed: trimming it again changes nothing, and it neither begins nor
    ends with a white-space code unit. *)
Theorem suggested_title_trimmed
    (k : jsstring)
    (generateContent : GoogleGenAI -> Request -> Exc Response)
    (content : jsstring) :
  exists t,
    suggestTitle (Some k) generateContent content = Returns t
    /\ t <> []
    /\ trim t = t
    /\ (forall c r, t = c :: r -> is_white c = false)
    /\ (forall c r, t = r ++ [c] -> is_white c = false).
Proof.
  rewrite suggestTitle_unfold. eexists. split; [reflexivity|].
  set (t := match generateContent _ _ with
            | Returns response => or_else (trim <$> text response) UNTITLED
            | Throws _ => UNTITLED
            end).
  assert (Ht : t = UNTITLED \/ exists raw, t = trim raw /\ t <> []).
  { unfold t. destruct (generateContent _ _) as [response|e]; [|now left].
    destruct (text response) as [raw|]; simpl; [|now left].
    destruct (trim raw) eqn:E; [now left|]. right. exists raw.
    rewrite E. split; [reflexivity | discriminate]. }
  destruct Ht as [-> | (raw & -> & Hne)].
  - split; [apply UNTITLED_nonempty|]. split; [apply trim_UNTITLED|].
    rewrite <- trim_UNTITLED. split; intros c r H.
    + now apply trim_head in H.
    + now apply trim_last in H.
  - split; [exact Hne|]. split; [apply trim_idem|]. split; intros c r H.
    + now apply trim_head in H.
    + now apply trim_last in H.
Qed.

(** ** What timers leave alone *)

Section TimerFrames.

Lemma fireAll_draft ts s :
  sameDraft s (fold_left (fun s x => runTask (task x) s) ts s).
Proof.
  revert s. induction ts as [|t ts IH]; intros s; simpl; [easy|].
  unfold sameDraft in *.
  destruct (IH (runTask (task t) s)) as (-> & -> & -> & ->).
  destruct (task t); simpl; try easy. now destruct (_ || _).
Qed.

Lemma elapse_draft ms s : sameDraft s (elapse ms s).
Proof.
  rewrite elapse_unfold. unfold sameDraft.
  destruct (fireAll_draft (ripeTimers ms s)
              (setTimers
                 (List.filter (fun x => negb (due x <=? now s + ms)) (timers s))
                 (nextTimer s) (setNow (now s + ms) s)))
    as (-> & -> & -> & ->).
  easy.
Qed.

End TimerFrames.

(** ** Requests and status *)

Section RequestFacts.

Lemma step_sent e s : sent (step e s) = sent (dispatch e s).
Proof. destruct e; try reflexivity; apply commit_sent. Qed.

(** What an event does to the list of requests sent. *)
Lemma dispatch_sent e s :
  sent (dispatch e s) = sent s
  \/ (e = Reload /\ sent (dispatch e s) = [])
  \/ (nonempty (trim (content s)) = true
      /\ ((e = ClickMuse
           /\ sent (dispatch e s) = sent s ++ [museRequest (content s)])
          \/ (e = ClickSuggestTitle
              /\ sent (dispatch e s) = sent s ++ [titleRequest (content s)]))).
Proof.
  destruct e; simpl; try (now left).
  - left. unfold handleMouseMove, clearUiTimeout. simpl.
    now destruct (uiTimeoutRef s).
  - left. unfold handleContentChange, clearUiTimeout. simpl.
    destruct (showUI s); [|reflexivity]. now destruct (uiTimeoutRef s).
  - destruct (museDisabled s); [now left|]. unfold handleAiMuse, startCall.
    destruct (nonempty _) eqn:Hne; [|now left]. simpl.
    destruct (apiKeyEnv s); simpl; [|now left].
    right; right. split; [reflexivity|]. now left.
  - unfold handleSuggestTitle, startCall.
    destruct (nonempty _) eqn:Hne; [|now left]. simpl.
    destruct (apiKeyEnv s); simpl; [|now left].
    right; right. split; [reflexivity|]. now right.
  - left. now destruct confirmed.
  - left. unfold settle. destruct (findCall _ _) as [c|]; [|reflexivity].
    destruct (kind c).
    + now destruct (getAiSuggestion _ _ _).
    + now destruct (suggestTitle _ _ _).
  - left. apply elapse_calls.
  - right; now left.
Qed.

Lemma dispatch_status e s : statusOk s -> statusOk (dispatch e s).
Proof.
  intros Hok. destruct e; simpl; try exact Hok.
  - unfold handleMouseMove, clearUiTimeout. simpl.
    now destruct (uiTimeoutRef s).
  - unfold handleContentChange, clearUiTimeout. simpl.
    destruct (showUI s); [|exact Hok]. now destruct (uiTimeoutRef s).
  - destruct (museDisabled s); [exact Hok|]. unfold handleAiMuse, startCall.
    destruct (nonempty _); [|exact Hok]. simpl.
    destruct (apiKeyEnv s) eqn:Hk; simpl; (split; simpl; [discriminate|]).
    + intros _ _. now destruct (pending s).
    + rewrite Hk. intros Hkey. now destruct Hkey.
  - unfold handleSuggestTitle, startCall.
    destruct (nonempty _); [|exact Hok]. simpl.
    destruct (apiKeyEnv s) eqn:Hk; simpl; (split; simpl; [discriminate|]).
    + intros _ _. now destruct (pending s).
    + rewrite Hk. intros Hkey. now destruct Hkey.
  - now destruct confirmed.
  - unfold settle. destruct (findCall _ _) as [c|]; [|exact Hok].
    cbn [apiKeyEnv setCalls].
    destruct (apiKeyEnv s) as [k|] eqn:Hk.
    + destruct (kind c).
      * rewrite getAiSuggestion_unfold. split; simpl; [discriminate|].
        intros _ [=].
      * rewrite suggestTitle_unfold. split; simpl; [discriminate|].
        intros _ [=].
    + assert (statusOk (setCalls (dropCall id (pending s)) (nextCall s)
                                 (sent s) s)) as Hdrop.
      { split; simpl; [apply Hok|]. rewrite Hk. intros Hkey. now destruct Hkey. }
      now destruct (kind c).
  - destruct (elapse_draft ms s) as (_ & _ & Hst & _).
    destruct (elapse_calls ms s) as (Hp & _).
    destruct (elapse_settings ms s) as (_ & _ & Hk).
    unfold statusOk. now rewrite Hst, Hp, Hk.
  - split; simpl; [discriminate|]. intros _ [=].
Qed.

Lemma step_status e s : statusOk s -> statusOk (step e s).
Proof.
  intros Hok. apply (dispatch_status e) in Hok.
  destruct e; try exact Hok;
    (unfold statusOk, step;
     rewrite commit_status, commit_pending, commit_apiKey; exact Hok).
Qed.

End RequestFacts.

(** X4. No event sends a request for a blank draft. Every event
    either leaves the list of requests sent as it is (a reload starts it
    anew), or is a click on one of the two suggestion controls over a
    draft that is not blank, and then appends the request made of the
    content the draft has at that click. *)
Theorem requests_only_for_drafts (e : Event) (s : State) :
  (trim (content s) = [] -> e <> Reload -> sent (step e s) = sent s)
  /\ (sent (step e s) = sent s
      \/ (e = Reload /\ sent (step e s) = [])
      \/ (nonempty (trim (content s)) = true
          /\ ((e = ClickMuse
               /\ sent (step e s) = sent s ++ [museRequest (content s)])
              \/ (e = ClickSuggestTitle
                  /\ sent (step e s) = sent s ++ [titleRequest (content s)])))).
Proof.
  rewrite step_sent. pose proof (dispatch_sent e s) as H. split; [|exact H].
  intros Hblank He.
  destruct H as [H | [(Hr & _) | (Hne & _)]]; [exact H | contradiction |].
  rewrite Hblank in Hne. discriminate.
Qed.

(** An instance of X4: a draft of three blanks, with a key, and a click
    on the title control. *)
Lemma requests_only_for_drafts_witness :
  let s := step (Input (lit "   ")) (mount (Some (lit "k")) 0 ∅) in
  sent (step ClickSuggestTitle s) = sent s.
Proof.
  cbv zeta.
  apply (requests_only_for_drafts ClickSuggestTitle); [|discriminate].
  vm_compute. reflexivity.
Defined.

(** X5. After any sequence of events the status is [IDLE] or
    [AI_THINKING], never [WRITING]; and in an application that has a key
    it is [AI_THINKING] only while some call is awaited: with no call
    awaited the status is [IDLE]. *)
Theorem status_never_stuck
    (k : jsstring) (key : option jsstring) (clock : N)
    (store : gmap string jsstring) (es : list Event) :
  let s := run es (mount key clock store) in
  let keyed := run es (mount (Some k) clock store) in
  (status s = IDLE \/ status s = AI_THINKING)
  /\ (pending keyed = [] -> status keyed = IDLE).
Proof.
  intros s keyed.
  assert (Hinv : forall key0, statusOk (run es (mount key0 clock store))).
  { intros key0. apply (run_invariant statusOk); [|apply step_status].
    intros. split; simpl; [discriminate|]. intros _ [=]. }
  split.
  - destruct (Hinv key) as (Hw & _). fold s in Hw.
    destruct (status s); [now left | congruence | now right].
  - destruct (Hinv (Some k)) as (Hw & Hp). fold keyed in Hw, Hp.
    intros Hnone. destruct (status keyed) eqn:E; [reflexivity | congruence |].
    exfalso. apply Hp; [|reflexivity | exact Hnone].
    unfold keyed. now rewrite run_apiKey.
Qed.

(** An instance of X5: with the key "k", after a title call has been
    answered nothing is awaited and the status is idle. *)
Lemma status_never_stuck_witness :
  status (run [Input (lit "a"); ClickSuggestTitle; Settle 0 (Throws [])]
              (mount (Some (lit "k")) 0 ∅)) = IDLE.
Proof.
  apply (status_never_stuck (lit "k") None 0 ∅
           [Input (lit "a"); ClickSuggestTitle; Settle 0 (Throws [])]).
  vm_compute. reflexivity.
Defined.

(** ** The store *)

Section StoreFacts.

Lemma persist_other_keys (k : string) s :
  k <> CONTENT_KEY -> k <> TITLE_KEY ->
  localStorage (persist s) !! k = localStorage s !! k.
Proof.
  intros Hc Ht. unfold persist. simpl.
  rewrite lookup_insert_ne by congruence.
  now rewrite lookup_insert_ne by congruence.
Qed.

Lemma step_other_keys (k : string) e s :
  k <> CONTENT_KEY -> k <> TITLE_KEY ->
  localStorage (step e s) !! k = localStorage s !! k.
Proof.
  intros Hc Ht.
  assert (Hcommit : e <> Reload ->
                    localStorage (commit s (dispatch e s)) !! k
                    = localStorage s !! k).
  { intros He. unfold commit. destruct (decide _).
    - now rewrite dispatch_localStorage.
    - rewrite persist_other_keys by assumption.
      now rewrite dispatch_localStorage. }
  destruct e; try (apply Hcommit; discriminate).
  cbn [step dispatch]. unfold mount.
  now rewrite persist_other_keys by assumption.
Qed.

Lemma run_other_keys (k : string) es s :
  k <> CONTENT_KEY -> k <> TITLE_KEY ->
  localStorage (run es s) !! k = localStorage s !! k.
Proof.
  intros Hc Ht. revert s. induction es as [|e es IH]; intros s; simpl;
    [reflexivity|].
  rewrite IH. now apply step_other_keys.
Qed.

Lemma mount_title_nonempty key clock store :
  title (mount key clock store) <> [].
Proof. simpl. apply or_else_nonempty. discriminate. Qed.

Lemma mount_again key clock store :
  mount key clock (localStorage (mount key clock store))
  = mount key clock store.
Proof.
  pose proof (mount_title_nonempty key clock store) as Hne. simpl in Hne.
  unfold mount, persist. simpl.
  rewrite lookup_insert_eq.
  rewrite lookup_insert_ne by discriminate. rewrite lookup_insert_eq.
  set (c := or_else (store !! CONTENT_KEY) []) in *.
  set (t := or_else (store !! TITLE_KEY) DEFAULT_TITLE) in *.
  assert (or_else (Some c) [] = c) as -> by now destruct c.
  assert (or_else (Some t) DEFAULT_TITLE = t) as -> by now apply or_else_value.
  unfold setWordCount, setLocalStorage. simpl. f_equal.
  rewrite (insert_insert_ne _ CONTENT_KEY TITLE_KEY) by discriminate.
  now rewrite !insert_insert_eq.
Qed.

End StoreFacts.

(** X6. After any sequence of events the store holds the current
    content and the current title under the two keys of the draft, and
    every other key of the store is as it was when the process
    started. *)
Theorem store_follows_draft
    (key : option jsstring) (clock : N) (store : gmap string jsstring)
    (es : list Event) (k : string) :
  k <> CONTENT_KEY -> k <> TITLE_KEY ->
  let s := run es (mount key clock store) in
  localStorage s !! CONTENT_KEY = Some (content s)
  /\ localStorage s !! TITLE_KEY = Some (title s)
  /\ localStorage s !! k = store !! k.
Proof.
  intros Hc Ht s. destruct (run_synced es key clock store) as (Sc & St).
  split; [exact Sc|]. split; [exact St|].
  unfold s. rewrite run_other_keys by assumption.
  unfold mount. now rewrite persist_other_keys.
Qed.

(** An instance of X6: a store that also holds a key of another
    application. *)
Lemma store_follows_draft_witness :
  let store : gmap string jsstring := {[ "theme"%string := lit "dark" ]} in
  let s := run [Input (lit "a"); ClickClear true] (mount None 0 store) in
  localStorage s !! "theme"%string = Some (lit "dark").
Proof.
  cbv zeta.
  pose proof (store_follows_draft None 0 {[ "theme"%string := lit "dark" ]}
                [Input (lit "a"); ClickClear true] "theme"
                ltac:(discriminate) ltac:(discriminate))
    as (_ & _ & Hk).
  rewrite Hk. reflexivity.
Defined.

(** X7. Starting the process over a store that lacks a key gives the
    default for it (the empty content, the default title); the title
    after a start is never empty; and a reload is idempotent: reloading
    twice leaves the very state of reloading once. *)
Theorem reload_defaults_and_idempotent
    (key : option jsstring) (clock : N) (store : gmap string jsstring)
    (s : State) :
  content (mount key clock (delete CONTENT_KEY store)) = []
  /\ title (mount key clock (delete TITLE_KEY store)) = DEFAULT_TITLE
  /\ title (step Reload s) <> []
  /\ step Reload (step Reload s) = step Reload s.
Proof.
  split; [|split; [|split]].
  - simpl. now rewrite lookup_delete_eq.
  - simpl. now rewrite lookup_delete_eq.
  - apply mount_title_nonempty.
  - simpl. apply mount_again.
Qed.

(** ** The footer *)

Section Footer.

Lemma dispatch_wordCount e s :
  e <> Reload -> wordCount (dispatch e s) = wordCount s.
Proof.
  intros He. destruct e; simpl; try reflexivity; try congruence.
  - unfold handleMouseMove, clearUiTimeout. simpl.
    now destruct (uiTimeoutRef s).
  - unfold handleContentChange, clearUiTimeout. simpl.
    destruct (showUI s); [|reflexivity]. now destruct (uiTimeoutRef s).
  - destruct (museDisabled s); [reflexivity|]. unfold handleAiMuse, startCall.
    destruct (nonempty _); [now destruct (newGoogleGenAI _)|easy].
  - unfold handleSuggestTitle, startCall. destruct (nonempty _); [now destruct (newGoogleGenAI _)|easy].
  - now destruct confirmed.
  - unfold settle. destruct (findCall _ _) as [c|]; [|reflexivity].
    destruct (kind c).
    + now destruct (getAiSuggestion _ _ _).
    + now destruct (suggestTitle _ _ _).
  - apply elapse_draft.
Qed.

Lemma step_counted e s : counted s -> counted (step e s).
Proof.
  intros Hs.
  assert (Hcommit : e <> Reload -> counted (commit s (dispatch e s))).
  { intros He. unfold commit.
    destruct (decide _) as [[Hc _]|_]; [|reflexivity].
    unfold counted. now rewrite Hc, dispatch_wordCount. }
  destruct e; try (apply Hcommit; discriminate). reflexivity.
Qed.

Lemma ceilDiv450_bounds (n : nat) :
  (n <= 450 * ceilDiv450 n /\ 450 * ceilDiv450 n < n + 450)%nat.
Proof.
  unfold ceilDiv450.
  pose proof (Nat.div_mod_eq n 450) as Hdm.
  pose proof (Nat.mod_upper_bound n 450 ltac:(discriminate)) as Hlt.
  destruct (Nat.eqb_spec (n mod 450) 0); lia.
Qed.

End Footer.

(** X8. After any sequence of events the count shown in the footer is
    the number of code units of the content once trimmed: white space
    around the draft is not counted, and a blank draft counts zero. *)
Theorem word_count_follows_content
    (key : option jsstring) (clock : N) (store : gmap string jsstring)
    (es : list Event) :
  let s := run es (mount key clock store) in
  wordCount s = length (trim (content s))
  /\ (wordCount s <= length (content s))%nat
  /\ (wordCount s = 0%nat <-> trim (content s) = []).
Proof.
  intros s.
  assert (Hc : counted s).
  { apply (run_invariant counted); [|apply step_counted]. reflexivity. }
  unfold counted in Hc. split; [exact Hc|]. split.
  - rewrite Hc. unfold trim, trimStart.
    destruct (trimEnd_prefix (dropWhile is_white (content s))) as [z Hz].
    destruct (dropWhile_suffix is_white (content s)) as [y Hy].
    apply (f_equal (@length N)) in Hz, Hy. rewrite length_app in Hz, Hy. lia.
  - rewrite Hc. now destruct (trim (content s)).
Qed.

(** X9. The reading time shown in the footer is at least one minute;
    it is the number of started blocks of 450 counted units, so that a
    count of [n >= 1] lies in [(450 (m - 1), 450 m]] for the [m] shown,
    and a count of zero shows one minute. *)
Theorem reading_minutes_bounds (n : nat) :
  (1 <= readingMinutes n)%nat
  /\ (n <= 450 * readingMinutes n)%nat
  /\ (1 <= n -> 450 * (readingMinutes n - 1) < n)%nat
  /\ readingMinutes 0 = 1%nat.
Proof.
  pose proof (ceilDiv450_bounds n) as (Hle & Hlt).
  unfold readingMinutes. destruct (ceilDiv450 n) as [|m]; repeat split; lia.
Qed.

(** ** The exported file *)

Section ExportFile.


Lemma utf8_of c : c < 0x110000 -> Utf8Of c (utf8 c).
Proof.
  intros Hc. unfold utf8.
  destruct (N.ltb_spec c 0x80) as [A1|A1]; [now constructor|].
  destruct (N.ltb_spec c 0x800) as [A2|A2];
    [constructor; zify; Z.to_euclidean_division_equations; lia|].
  destruct (N.ltb_spec c 0x10000) as [A3|A3];
    constructor; zify; Z.to_euclidean_division_equations; lia.
Qed.

Lemma Utf8Of_prefix c c' b b' r r' :
  Utf8Of c b -> Utf8Of c' b' -> b ++ r = b' ++ r' -> c = c' /\ r = r'.
Proof.
  intros Hb Hb'. destruct Hb, Hb'; simpl; intros Heq; injection Heq;
    intros; subst;
    first [split; [lia|reflexivity] | exfalso; lia].
Qed.

Lemma utf8_prefix c c' r r' :
  c < 0x110000 -> c' < 0x110000 ->
  utf8 c ++ r = utf8 c' ++ r' -> c = c' /\ r = r'.
Proof.
  intros Hc Hc'. apply Utf8Of_prefix; now apply utf8_of.
Qed.

Lemma utf8_nonempty c : utf8 c <> [].
Proof.
  unfold utf8. destruct (c <? 0x80); [discriminate|].
  destruct (c <? 0x800); [discriminate|]. now destruct (c <? 0x10000).
Qed.

Lemma flat_utf8_injective (l l' : list N) :
  Forall isScalar l -> Forall isScalar l' ->
  flat_map utf8 l = flat_map utf8 l' -> l = l'.
Proof.
  intros Hl. revert l'. induction Hl as [|c l Hc Hl IH]; intros l' Hl' Heq.
  - destruct l' as [|c' l']; [reflexivity|]. simpl in Heq.
    destruct (utf8 c') eqn:E; [now apply utf8_nonempty in E | discriminate].
  - destruct Hl' as [|c' l' Hc' Hl']; simpl in Heq.
    + destruct (utf8 c) eqn:E; [now apply utf8_nonempty in E | discriminate].
    + apply utf8_prefix in Heq as [-> Heq]; [|assumption..].
      f_equal. now apply IH.
Qed.

Lemma wellFormed_spec (s : jsstring) : wellFormed s = true -> WellFormed s.
Proof.
  remember (length s) as n eqn:Hn. revert s Hn.
  induction n as [n IH] using lt_wf_ind. intros s Hn H.
  destruct s as [|u rest]; [constructor|]. simpl in H.
  destruct (isHigh u) eqn:Hu.
  - destruct rest as [|lo rest]; [discriminate|].
    apply andb_prop in H as [Hlo H].
    apply WF_pair; try assumption.
    apply (IH (length rest)); [simpl in Hn; lia | reflexivity | exact H].
  - apply andb_prop in H as [H Hrest]. apply andb_prop in H as [Hl Hb].
    constructor; try assumption.
    + now destruct (isLow u).
    + now apply N.ltb_lt.
    + apply (IH (length rest)); [simpl in Hn; lia | reflexivity | exact Hrest].
Qed.


Lemma toScalars_unit u rest :
  isHigh u = false -> isLow u = false ->
  toScalars (u :: rest) = u :: toScalars rest.
Proof. intros Hh Hl. simpl. now rewrite Hh, Hl. Qed.

Lemma toScalars_pair hi lo rest :
  isHigh hi = true -> isLow lo = true ->
  toScalars (hi :: lo :: rest) = pairScalar hi lo :: toScalars rest.
Proof. intros Hh Hl. cbn [toScalars]. now rewrite Hh, Hl. Qed.

Lemma pairScalar_range hi lo :
  isHigh hi = true -> isLow lo = true ->
  0x10000 <= pairScalar hi lo < 0x110000.
Proof.
  unfold isHigh, isLow, pairScalar. intros Hh Hl.
  apply andb_prop in Hh as [H1 H2]. apply andb_prop in Hl as [H3 H4].
  apply N.leb_le in H1, H2, H3, H4. lia.
Qed.

Lemma pairScalar_injective hi lo hi' lo' :
  isHigh hi = true -> isLow lo = true ->
  isHigh hi' = true -> isLow lo' = true ->
  pairScalar hi lo = pairScalar hi' lo' -> hi = hi' /\ lo = lo'.
Proof.
  unfold isHigh, isLow, pairScalar. intros Hh Hl Hh' Hl'.
  apply andb_prop in Hh as [H1 H2]. apply andb_prop in Hl as [H3 H4].
  apply andb_prop in Hh' as [H5 H6]. apply andb_prop in Hl' as [H7 H8].
  apply N.leb_le in H1, H2, H3, H4, H5, H6, H7, H8. lia.
Qed.

Lemma toScalars_scalars (s : jsstring) :
  WellFormed s -> Forall isScalar (toScalars s).
Proof.
  induction 1 as [|u rest Hh Hl Hb _ IH|hi lo rest Hh Hl _ IH].
  - constructor.
  - rewrite toScalars_unit by assumption. constructor; [|exact IH].
    unfold isScalar. lia.
  - rewrite toScalars_pair by assumption. constructor; [|exact IH].
    apply pairScalar_range; assumption.
Qed.

Lemma toScalars_injective (s s' : jsstring) :
  WellFormed s -> WellFormed s' -> toScalars s = toScalars s' -> s = s'.
Proof.
  intros Hs. revert s'.
  induction Hs as [|u rest Hh Hl Hb _ IH|hi lo rest Hh Hl _ IH];
    intros s' Hs' Heq;
    destruct Hs' as [|u' rest' Hh' Hl' Hb' Hr'|hi' lo' rest' Hh' Hl' Hr'];
    rewrite ?(toScalars_unit u rest), ?(toScalars_unit u' rest'),
      ?(toScalars_pair hi lo rest), ?(toScalars_pair hi' lo' rest') in Heq
      by assumption;
    try discriminate; try reflexivity.
  - injection Heq as -> Heq. f_equal. now apply IH.
  - injection Heq as Hc Heq.
    pose proof (pairScalar_range hi' lo' Hh' Hl'). lia.
  - injection Heq as Hc Heq.
    pose proof (pairScalar_range hi lo Hh Hl). lia.
  - injection Heq as Hc Heq.
    apply pairScalar_injective in Hc as [-> ->]; try assumption.
    do 2 f_equal. now apply IH.
Qed.

Lemma utf8Encode_injective (s s' : jsstring) :
  wellFormed s = true -> wellFormed s' = true ->
  utf8Encode s = utf8Encode s' -> s = s'.
Proof.
  intros Hs Hs' Heq. apply wellFormed_spec in Hs, Hs'.
  apply toScalars_injective; try assumption.
  apply flat_utf8_injective; try assumption; now apply toScalars_scalars.
Qed.



End ExportFile.

(** Two unpaired surrogates, a pair (U+1F600), and the code units
    U+0061, U+00E9, U+65B0. *)
Example lone_surrogates_collide :
  utf8Encode [0xD83D] = [0xEF; 0xBF; 0xBD]
  /\ utf8Encode [0xD83E] = [0xEF; 0xBF; 0xBD]
  /\ utf8Encode [0xD83D; 0xDE00] = [0xF0; 0x9F; 0x98; 0x80]
  /\ utf8Encode [0x61; 0xE9; 0x65B0] = [0x61; 0xC3; 0xA9; 0xE6; 0x96; 0xB0].
Proof. repeat split. Qed.


(** ** Font steps *)

Section FontSteps.

Local Open Scope Z_scope.

Lemma step_fontSize e s :
  fontSize (step e s) =
  match e with
  | ClickFontMinus => Z.max 16 (fontSize s - 2)
  | ClickFontPlus => Z.min 42 (fontSize s + 2)
  | Reload => 20
  | _ => fontSize s
  end.
Proof.
  pose proof (dispatch_settings e s) as H.
  destruct e; try (unfold step; rewrite commit_fontSize; apply H);
    try (unfold step; rewrite commit_fontSize; reflexivity).
  reflexivity.
Qed.

Lemma step_fontEven e s : fontEven s -> fontEven (step e s).
Proof.
  unfold fontEven. intros Hs. rewrite step_fontSize.
  destruct e; try exact Hs; try reflexivity.
  - destruct (Z.max_spec 16 (fontSize s - 2)) as [[_ ->] | [_ ->]];
      [|reflexivity].
    now rewrite Z.even_sub, Hs.
  - destruct (Z.min_spec 42 (fontSize s + 2)) as [[_ ->] | [_ ->]];
      [reflexivity|].
    now rewrite Z.even_add, Hs.
Qed.

End FontSteps.

(** X11. After any sequence of events the font size is an even number;
    an increase followed by a decrease gives the size back unless the
    size was at the upper bound, and a decrease followed by an increase
    gives it back unless it was at the lower bound. *)
Theorem font_steps_even_and_inverse
    (key : option jsstring) (clock : N) (store : gmap string jsstring)
    (es : list Event) :
  let s := run es (mount key clock store) in
  Z.even (fontSize s) = true
  /\ (fontSize s < 42 ->
      fontSize (run [ClickFontPlus; ClickFontMinus] s) = fontSize s)%Z
  /\ (16 < fontSize s ->
      fontSize (run [ClickFontMinus; ClickFontPlus] s) = fontSize s)%Z
  /\ (fontSize s = 42 ->
      fontSize (run [ClickFontPlus; ClickFontMinus] s) = 40)%Z
  /\ (fontSize s = 16 ->
      fontSize (run [ClickFontMinus; ClickFontPlus] s) = 18)%Z.
Proof.
  intros s.
  assert (Heven : fontEven s).
  { apply (run_invariant fontEven); [|apply step_fontEven]. reflexivity. }
  assert (Hrange : fontInRange s).
  { apply run_fontInRange. unfold fontInRange. rewrite mount_fontSize. lia. }
  unfold fontEven in Heven. unfold fontInRange in Hrange.
  split; [exact Heven|].
  unfold run. cbn [fold_left]. rewrite !step_fontSize.
  apply Z.even_spec in Heven as [h Hh].
  repeat split; intros; lia.
Qed.

(** An instance of X11: a fresh draft at size 20. *)
Lemma font_steps_even_and_inverse_witness :
  fontSize (run [ClickFontPlus; ClickFontMinus] (run [] (mount None 0 ∅)))
  = 20%Z.
Proof.
  pose proof (font_steps_even_and_inverse None 0 ∅ [])
    as (_ & Hback & _).
  rewrite Hback; [reflexivity|]. vm_compute. reflexivity.
Defined.

(** ** What shows and hides the chrome *)

Section Chrome.

Lemma dispatch_showUI e s :
  showUI (dispatch e s) =
  match e with
  | MouseMove | Reload => true
  | Elapse ms => snd (visAfter (ripeTimers ms s) (isTypingRef s) (showUI s))
  | _ => showUI s
  end.
Proof.
  destruct e; simpl; try reflexivity.
  - apply handleMouseMove_fields.
  - destruct (showUI s) eqn:Hv.
    + now apply handleContentChange_visible.
    + now apply handleContentChange_hidden.
  - destruct (museDisabled s); [reflexivity|]. unfold handleAiMuse, startCall.
    destruct (nonempty _); [now destruct (newGoogleGenAI _)|easy].
  - unfold handleSuggestTitle, startCall. destruct (nonempty _); [now destruct (newGoogleGenAI _)|easy].
  - now destruct confirmed.
  - unfold settle. destruct (findCall _ _) as [c|]; [|reflexivity].
    destruct (kind c).
    + now destruct (getAiSuggestion _ _ _).
    + now destruct (suggestTitle _ _ _).
  - rewrite <- elapse_visibility. unfold step. now rewrite commit_showUI.
Qed.

Lemma step_showUI e s : showUI (step e s) = showUI (dispatch e s).
Proof. destruct e; try reflexivity; apply commit_showUI. Qed.

End Chrome.

(** X12. Only the passing of time hides the chrome, and only a pointer
    movement or a reload shows it: every event other than an elapse
    leaves a shown chrome shown, and every event other than a pointer
    movement and a reload, typing included, leaves a hidden chrome
    hidden. *)
Theorem chrome_shown_and_hidden_by (e : Event) (s : State) :
  ((forall ms, e <> Elapse ms) -> showUI s = true ->
   showUI (step e s) = true)
  /\ (e <> MouseMove -> e <> Reload -> showUI s = false ->
      showUI (step e s) = false).
Proof.
  rewrite step_showUI, dispatch_showUI. split.
  - intros He Hs. destruct e; try exact Hs; try reflexivity.
    now destruct (He ms).
  - intros Hm Hr Hs. destruct e; try exact Hs; try congruence.
    rewrite Hs. apply visAfter_hidden.
Qed.

(** An instance of X12: typing into a hidden chrome leaves it hidden. *)
Lemma chrome_shown_and_hidden_by_witness :
  let s := run [Input (lit "a"); Elapse 2000] (mount None 0 ∅) in
  showUI (step (Input (lit "ab")) s) = false.
Proof.
  cbv zeta.
  apply (chrome_shown_and_hidden_by (Input (lit "ab"))); try discriminate.
  vm_compute. reflexivity.
Defined.

(** ** More on the caret tracker *)

Section CaretMore.

Import CaretTracker.
Local Open Scope Q_scope.



End CaretMore.



(** ** The typing flag and the blur timer *)

Section Blur.

Lemma elapse_typing ms s :
  isTypingRef (step (Elapse ms) s)
  = fst (visAfter (ripeTimers ms s) (isTypingRef s) (showUI s)).
Proof.
  unfold step.
  replace (isTypingRef (commit s (dispatch (Elapse ms) s)))
    with (isTypingRef (dispatch (Elapse ms) s))
    by (symmetry; apply commit_fields).
  cbn [dispatch]. rewrite elapse_unfold.
  pose proof (fireAll_visibility (ripeTimers ms s)
                (setTimers
                   (List.filter (fun x => negb (due x <=? now s + ms))
                                (timers s))
                   (nextTimer s) (setNow (now s + ms) s))) as H.
  cbv zeta in H. simpl isTypingRef in H at 2. simpl showUI in H at 2.
  now rewrite <- H.
Qed.

Lemma visAfter_not_typing ts vis : fst (visAfter ts false vis) = false.
Proof.
  revert vis. induction ts as [|t ts IH]; intros vis; simpl; [reflexivity|].
  destruct (task t); apply IH.
Qed.

Lemma visAfter_stops t ts typing vis :
  In t ts -> task t = StopTyping -> fst (visAfter ts typing vis) = false.
Proof.
  intros Hin Ht. revert typing vis.
  induction ts as [|u ts IH]; intros typing vis; [destruct Hin|].
  destruct Hin as [-> | Hin]; simpl.
  - rewrite Ht. apply visAfter_not_typing.
  - destruct (task u); now apply IH.
Qed.

End Blur.

(** X15. The timer set when the editor loses focus is never cancelled:
    even when the editor is focused again at once, the typing flag is
    cleared once 250 ms have passed. *)
Theorem blur_timer_outlives_refocus (s : State) (ms : N) :
  250 <= ms ->
  let refocused := step EditorFocus (step EditorBlur s) in
  isTypingRef refocused = true
  /\ isTypingRef (step (Elapse ms) refocused) = false.
Proof.
  intros Hms refocused.
  assert (Hx : refocused
               = setIsTypingRef true (snd (setTimeout StopTyping 250 s))).
  { unfold refocused, step. cbn [dispatch].
    now rewrite !commit_unchanged by reflexivity. }
  split; [now rewrite Hx|].
  rewrite elapse_typing.
  apply (visAfter_stops
           {| timer_id := nextTimer s; due := now s + 250; task := StopTyping |});
    [|reflexivity].
  rewrite Hx. unfold ripeTimers. apply List.filter_In. simpl. split.
  - apply In_insertTimer. now left.
  - apply N.leb_le. lia.
Qed.

(** An instance of X15: blur and refocus on a fresh draft, 250 ms. *)
Lemma blur_timer_outlives_refocus_witness :
  isTypingRef (step (Elapse 250)
                 (step EditorFocus (step EditorBlur (mount None 0 ∅))))
  = false.
Proof.
  apply (blur_timer_outlives_refocus (mount None 0 ∅) 250). discriminate.
Defined.

(** ** Clearing, suggesting and the store *)

(** X16. After a confirmed clear, in any state reached by the
    application, the store holds the empty content and the cleared
    title, a reload brings them back as they are, the count shown is
    zero, and a click on either suggestion control sends nothing. *)
Theorem clear_is_persisted_and_silences
    (key : option jsstring) (clock : N) (store : gmap string jsstring)
    (es : list Event) :
  let c := step (ClickClear true) (run es (mount key clock store)) in
  localStorage c !! CONTENT_KEY = Some []
  /\ localStorage c !! TITLE_KEY = Some CLEARED_TITLE
  /\ content (step Reload c) = []
  /\ title (step Reload c) = CLEARED_TITLE
  /\ wordCount c = 0%nat
  /\ sent (step ClickMuse c) = sent c
  /\ sent (step ClickSuggestTitle c) = sent c.
Proof.
  intros c.
  assert (Hc : content c = []) by (unfold c, step; now rewrite commit_content).
  assert (Ht : title c = CLEARED_TITLE)
    by (unfold c, step; now rewrite commit_title).
  assert (Hsync : synced c) by (apply step_synced, run_synced).
  assert (Hcount : counted c).
  { apply step_counted, (run_invariant counted); [|apply step_counted].
    reflexivity. }
  pose proof Hsync as (Sc & St). rewrite Hc in Sc. rewrite Ht in St.
  split; [exact Sc|]. split; [exact St|].
  split; [now rewrite reload_content|].
  split; [now rewrite reload_title, Ht|].
  unfold counted in Hcount. rewrite Hc in Hcount.
  split; [exact Hcount|].
  rewrite !step_sent. cbn [dispatch].
  rewrite handleAiMuse_blank, handleSuggestTitle_blank by now rewrite Hc.
  split; [now destruct (museDisabled c) | reflexivity].
Qed.

(** X17. A title set by a completed title call, in any state reached
    by the application, is in the store at once and is the title after a
    reload: a suggested title is never empty, so the default never
    replaces it. *)
Theorem suggested_title_survives_reload
    (key : option jsstring) (clock : N) (store : gmap string jsstring)
    (es : list Event) (id : nat) (c : Call) (outcome : Exc Response) :
  let s := run es (mount key clock store) in
  findCall id (pending s) = Some c -> kind c = TitleCall ->
  let s' := step (Settle id outcome) s in
  localStorage s' !! TITLE_KEY = Some (title s')
  /\ title (step Reload s') = title s'.
Proof.
  intros s Hfind Hkind s'.
  assert (Hsync : synced s') by (apply step_synced, run_synced).
  split; [apply Hsync|]. rewrite reload_title by exact Hsync.
  apply or_else_value.
  destruct (awaited_has_key es key clock store id c Hfind) as (k & Hk).
  destruct (settle_title s k id c outcome Hk Hfind Hkind) as (_ & Ht & _).
  fold s' in Ht. rewrite Ht. destruct outcome.
  - apply or_else_nonempty, UNTITLED_nonempty.
  - apply UNTITLED_nonempty.
Qed.

(** An instance of X17: the title call of the draft "a" fails, and the
    fallback title survives a reload. *)
Lemma suggested_title_survives_reload_witness :
  let s := run [Input (lit "a"); ClickSuggestTitle]
               (mount (Some (lit "k")) 0 ∅) in
  let s' := step (Settle 0 (Throws [])) s in
  title (step Reload s') = title s'.
Proof.
  cbv zeta.
  apply (suggested_title_survives_reload (Some (lit "k")) 0 ∅
           [Input (lit "a"); ClickSuggestTitle] 0
           {| call_id := 0; kind := TitleCall; argument := lit "a" |}
           (Throws [])).
  - vm_compute. reflexivity.
  - reflexivity.
Defined.

(** ** Which timers are cancelled *)

Section Cancelling.

Lemma idsOk_filter f ref next ts :
  idsOk ref next ts -> idsOk ref next (List.filter f ts).
Proof.
  intros (H1 & H2 & H3). repeat split; [|exact H2|];
    apply List.Forall_forall; intros t Hin;
    apply List.filter_In in Hin as [Hin _];
    rewrite List.Forall_forall in H1, H3; auto.
Qed.

Lemma idsOk_forget ref next ts : idsOk ref next ts -> idsOk None next ts.
Proof.
  intros (H1 & _ & _). repeat split; [exact H1 | discriminate |].
  apply List.Forall_forall. discriminate.
Qed.

Lemma idsOk_plain ref next ts d k :
  idsOk ref next ts ->
  idsOk ref (S next)
        (insertTimer {| timer_id := next; due := d; task := k |} ts).
Proof.
  intros (H1 & H2 & H3). rewrite List.Forall_forall in H1, H3.
  repeat split.
  - apply List.Forall_forall. intros t Hin.
    apply In_insertTimer in Hin as [-> | Hin]; simpl; [lia|].
    specialize (H1 t Hin). lia.
  - intros id Hid. specialize (H2 id Hid). lia.
  - apply List.Forall_forall. intros t Hin Href.
    apply In_insertTimer in Hin as [-> | Hin]; [|now apply H3].
    simpl in Href. specialize (H2 next Href). lia.
Qed.

Lemma idsOk_hide ref next ts d k :
  isHideTask k = true -> idsOk ref next ts ->
  idsOk (Some next) (S next)
        (insertTimer {| timer_id := next; due := d; task := k |} ts).
Proof.
  intros Hk (H1 & H2 & H3). rewrite List.Forall_forall in H1.
  repeat split.
  - apply List.Forall_forall. intros t Hin.
    apply In_insertTimer in Hin as [-> | Hin]; simpl; [lia|].
    specialize (H1 t Hin). lia.
  - intros id [= <-]. lia.
  - apply List.Forall_forall. intros t Hin [= Href].
    apply In_insertTimer in Hin as [-> | Hin]; [exact Hk|].
    specialize (H1 t Hin). lia.
Qed.

Lemma fireAll_nextTimer ts s :
  nextTimer (fold_left (fun s x => runTask (task x) s) ts s) = nextTimer s.
Proof.
  revert s. induction ts as [|t ts IH]; intros s; simpl; [reflexivity|].
  rewrite IH. destruct (task t) as [c| | |]; simpl; try reflexivity.
  destruct (isTypingRef s || nonempty c); reflexivity.
Qed.

Lemma dispatch_idsOk e s : timerIdsOk s -> timerIdsOk (dispatch e s).
Proof.
  unfold timerIdsOk. intros Hok. destruct e; simpl; try exact Hok.
  - unfold handleMouseMove, clearUiTimeout. simpl.
    destruct (uiTimeoutRef s); simpl;
      apply (idsOk_hide None); try reflexivity;
      eapply idsOk_forget; [apply idsOk_filter|]; exact Hok.
  - unfold handleContentChange, clearUiTimeout. simpl.
    destruct (showUI s); [|exact Hok].
    destruct (uiTimeoutRef s); simpl;
      apply (idsOk_hide None); try reflexivity;
      eapply idsOk_forget; [apply idsOk_filter|]; exact Hok.
  - now apply idsOk_plain.
  - destruct (museDisabled s); [exact Hok|]. unfold handleAiMuse, startCall.
    destruct (nonempty _); [now destruct (newGoogleGenAI _)|easy].
  - unfold handleSuggestTitle, startCall. destruct (nonempty _); [now destruct (newGoogleGenAI _)|easy].
  - now destruct confirmed.
  - unfold settle. destruct (findCall _ _) as [c|]; [|exact Hok].
    destruct (kind c).
    + destruct (getAiSuggestion _ _ _); [|exact Hok].
      simpl. now apply idsOk_plain.
    + now destruct (suggestTitle _ _ _).
  - rewrite elapse_unfold.
    set (s0 := setTimers _ _ _).
    destruct (fireAll_timers (ripeTimers ms s) s0) as (Ht & Hr & _).
    cbv zeta in Ht, Hr. rewrite Ht, Hr.
    rewrite (fireAll_nextTimer (ripeTimers ms s) s0).
    simpl. now apply idsOk_filter.
  - repeat split; [constructor | discriminate | constructor].
Qed.

Lemma step_idsOk e s : timerIdsOk s -> timerIdsOk (step e s).
Proof.
  intros Hok. apply (dispatch_idsOk e) in Hok.
  destruct e; try exact Hok;
    (unfold timerIdsOk, step;
     pose proof (commit_fields s (dispatch _ s))
       as (_ & _ & _ & _ & _ & -> & -> & -> & _);
     exact Hok).
Qed.

Lemma plain_insert_hide t ts :
  isHideTask (task t) = true ->
  List.filter (fun t => negb (isHideTask (task t))) (insertTimer t ts)
  = List.filter (fun t => negb (isHideTask (task t))) ts.
Proof.
  intros Ht. induction ts as [|u ts IH]; simpl.
  - now rewrite Ht.
  - destruct (due u <=? due t); simpl.
    + now rewrite IH.
    + now rewrite Ht.
Qed.

Lemma plain_cleared s :
  timerIdsOk s -> plainTimers (clearUiTimeout s) = plainTimers s.
Proof.
  intros (_ & _ & H3). unfold plainTimers, clearUiTimeout.
  destruct (uiTimeoutRef s) as [id|]; [|reflexivity]. simpl.
  induction H3 as [|t ts Ht _ IH]; simpl; [reflexivity|].
  destruct (Nat.eqb_spec (timer_id t) id) as [<-|Hne]; simpl.
  - unfold hides in Ht. rewrite (Ht eq_refl). simpl. exact IH.
  - now rewrite IH.
Qed.

End Cancelling.

(** X18. A pointer movement or a keystroke cancels no timer but the
    hide timer: in any state reached by the application, the pending
    timers of the other kinds (the blur timer, the scroll after a
    continuation) are the same before and after. *)
Theorem only_hide_timer_cancelled
    (key : option jsstring) (clock : N) (store : gmap string jsstring)
    (es : list Event) (v : jsstring) :
  let s := run es (mount key clock store) in
  plainTimers (step MouseMove s) = plainTimers s
  /\ plainTimers (step (Input v) s) = plainTimers s.
Proof.
  intros s.
  assert (Hok : timerIdsOk s).
  { apply (run_invariant timerIdsOk); [|apply step_idsOk].
    intros. repeat split; [constructor | discriminate | constructor]. }
  unfold plainTimers, step. rewrite !commit_timers. cbn [dispatch]. split.
  - destruct (handleMouseMove_fields s) as (_ & _ & -> & _).
    rewrite plain_insert_hide by reflexivity. now apply plain_cleared.
  - destruct (showUI s) eqn:Hv.
    + destruct (handleContentChange_visible v s Hv) as (_ & _ & -> & _).
      rewrite plain_insert_hide by reflexivity. now apply plain_cleared.
    + now destruct (handleContentChange_hidden v s Hv) as (_ & _ & ->).
Qed.

(** ** Typing while a call is awaited *)

Section Waiting.

Lemma step_input_fields v s :
  let s' := step (Input v) s in
  content s' = v /\ title s' = title s /\ pending s' = pending s
  /\ sent s' = sent s /\ apiKeyEnv s' = apiKeyEnv s /\ status s' = status s.
Proof.
  cbv zeta. unfold step.
  pose proof (commit_fields s (dispatch (Input v) s))
    as (-> & -> & -> & _ & _ & _ & _ & _ & _ & -> & _ & -> & ->).
  cbn [dispatch]. unfold handleContentChange, clearUiTimeout. simpl.
  destruct (showUI s); [|repeat split]. now destruct (uiTimeoutRef s).
Qed.

End Waiting.

(** X19. In an application that has a key, text typed while a
    continuation is awaited is kept: the request was made of the content
    at the click, and when the answer comes the suggestion is appended,
    after a blank line, to the content as typed since. *)
Theorem edits_kept_while_waiting
    (k : jsstring) (clock : N) (store : gmap string jsstring)
    (es : list Event) (v : jsstring) (outcome : Exc Response) :
  let s := run es (mount (Some k) clock store) in
  nonempty (trim (content s)) = true ->
  status s <> AI_THINKING ->
  exists suggestion,
    getAiSuggestion (Some k) (fun _ _ => outcome) (content s)
      = Returns suggestion
    /\ sent (run [ClickMuse; Input v] s) = sent s ++ [museRequest (content s)]
    /\ content (run [ClickMuse; Input v; Settle (nextCall s) outcome] s)
       = v ++ [LF; LF] ++ suggestion.
Proof.
  intros s Hne Hst. unfold run. cbn [fold_left].
  assert (Hk : apiKeyEnv s = Some k) by apply run_apiKey.
  destruct (click_muse_starts s k Hk Hne Hst) as (_ & Hp1 & Hs1 & _ & _ & Hk1).
  destruct (step_input_fields v (step ClickMuse s))
    as (Hc2 & _ & Hp2 & Hs2 & Hk2 & _).
  set (c := {| call_id := nextCall s; kind := MuseCall;
               argument := content s |}) in *.
  assert (Hfind : findCall (nextCall s)
                    (pending (step (Input v) (step ClickMuse s))) = Some c).
  { rewrite Hp2, Hp1. apply (findCall_new (pending s) c), run_fresh. }
  assert (Hk3 : apiKeyEnv (step (Input v) (step ClickMuse s)) = Some k)
    by now rewrite Hk2, Hk1.
  destruct (settle_muse _ k _ _ outcome Hk3 Hfind eq_refl) as (Hg & Hc3 & _).
  eexists. rewrite Hk3 in Hg. split; [exact Hg|].
  split; [now rewrite Hs2, Hs1|]. now rewrite Hc3, Hc2.
Qed.

(** An instance of X19: with the key "k", "Once" at the click,
    "Once upon" at the answer " a time". *)
Lemma edits_kept_while_waiting_witness :
  let s := run [Input (lit "Once")] (mount (Some (lit "k")) 0 ∅) in
  let answer := Returns {| text := Some (lit " a time") |} in
  content (run [ClickMuse; Input (lit "Once upon"); Settle (nextCall s) answer] s)
  = lit "Once upon" ++ [LF; LF] ++ lit " a time".
Proof.
  cbv zeta.
  assert (Hne : nonempty (trim (content (run [Input (lit "Once")]
                                            (mount (Some (lit "k")) 0 ∅))))
                = true)
    by (vm_compute; reflexivity).
  assert (Hst : status (run [Input (lit "Once")] (mount (Some (lit "k")) 0 ∅))
                <> AI_THINKING)
    by (vm_compute; discriminate).
  destruct (edits_kept_while_waiting (lit "k") 0 ∅ [Input (lit "Once")]
              (lit "Once upon") (Returns {| text := Some (lit " a time") |})
              Hne Hst) as (suggestion & Hs & _ & Hc).
  rewrite Hc. f_equal. f_equal.
  assert (Returns suggestion = Returns (lit " a time")) as Heq
    by (rewrite <- Hs; vm_compute; reflexivity).
  now injection Heq.
Defined.

(** ** The height of the editor *)

(** X20. With both refs set, [adjustHeight] leaves the editor's height
    and the wrapper's minimum height equal to the scroll height measured
    under [height: auto], whatever they were before, so that running it
    again changes nothing; while the editor's height is [auto] for the
    measure, the wrapper's minimum height is pinned to the height the
    editor had on entry. With a ref missing it writes nothing. *)
Theorem adjust_height_pins_and_settles
    (offsetHeight scrollHeight : Layout.CssHeight -> Z)
    (editorRef wrapperRef : bool) (d d' : Layout.Dom) :
  let adjust := Layout.adjustHeight offsetHeight scrollHeight in
  let measured := Layout.Px (scrollHeight Layout.Auto) in
  Layout.editorHeight (adjust true true d) = measured
  /\ Layout.wrapperMinHeight (adjust true true d) = measured
  /\ adjust true true d = adjust true true d'
  /\ adjust true true (adjust true true d) = adjust true true d
  /\ Forall (fun x =>
               Layout.editorHeight x = Layout.Auto ->
               Layout.wrapperMinHeight x
               = Layout.Px (offsetHeight (Layout.editorHeight d)))
            (Layout.adjustHeightSteps offsetHeight scrollHeight true true d)
  /\ (editorRef && wrapperRef = false ->
      adjust editorRef wrapperRef d = d
      /\ Layout.adjustHeightSteps offsetHeight scrollHeight
           editorRef wrapperRef d = []).
Proof.
  intros adjust measured. unfold adjust, Layout.adjustHeight,
    Layout.adjustHeightSteps. simpl.
  repeat split; try reflexivity.
  - repeat constructor; simpl; discriminate.
  - now rewrite H.
  - now rewrite H.
Qed.

(** An instance of X20: the editor ref is not set yet. *)
Lemma adjust_height_pins_and_settles_witness :
  let d := {| Layout.editorHeight := Layout.Unset;
              Layout.wrapperMinHeight := Layout.Unset |} in
  Layout.adjustHeight (fun _ => 0%Z) (fun _ => 0%Z) false true d = d.
Proof.
  cbv zeta.
  now apply (adjust_height_pins_and_settles (fun _ => 0%Z) (fun _ => 0%Z)
               false true
               {| Layout.editorHeight := Layout.Unset;
                  Layout.wrapperMinHeight := Layout.Unset |}
               {| Layout.editorHeight := Layout.Unset;
                  Layout.wrapperMinHeight := Layout.Unset |}).
Defined.
